(** * GitHub user/repository collector: a shallow embedding of [code.py]

    The script queries the GitHub search API for users, fetches the profile
    and the repositories of each, normalises a few fields and writes two
    tables.  This development embeds the helper functions
    ([get_github_token], [clean_company], [handle_boolean]), the two
    paginated fetchers ([fetch_users], [fetch_repositories]), the detail
    fetcher and the record-building loop of [main], and proves the
    properties the specification states about them.

    Conventions of the embedding:
    - a Python value coming out of [response.json()] is a [pyval];
    - a Python [str] that comes from outside (a JSON string, the value of
      an environment variable) is a [text], a list of code points; the
      whitespace [str.strip()] removes is the set of Python; the uppercase
      mapping of [str.upper()], which belongs to the Unicode tables of the
      interpreter and not to the script, is a parameter [upper_of] of the
      development, with the facts used about it gathered in
      [upper_table_ok]; the keys, messages and other literals of the
      script are Rocq strings, read as texts where needed;
    - Python exceptions are values of [exn]; a computation yields an
      [outcome]; functions that talk to the outside (console, HTTP) are in
      the writer monad [M], whose log records what was printed or which
      pages were requested;
    - the HTTP server is a function from the requested page to the
      [response] it gives: every request is answered.  Within one call of
      a fetcher every page is requested at most once, so this covers
      servers with state.  A request that fails without a response (no
      connection, a time-out), on which [requests.get] raises, is outside
      the embedding;
    - the progress lines the fetchers and [main] print and the pauses
      between pages are left out, as are the construction of the data
      frames and the writing of the CSV files: the tables are the two
      lists of records [main] hands over. *)

From Stdlib Require Import ZArith List String Ascii Bool Lia.
Import ListNotations.

Local Open Scope string_scope.
Local Open Scope Z_scope.
Local Open Scope list_scope.
Local Set Warnings "-register-all".

(** ** Text *)

(** A Python [str]: its code points. *)
Definition text : Type := list N.

(** A literal of the script, which is ASCII, as a text. *)
Definition text_of_string (s : string) : text :=
  map N_of_ascii (list_ascii_of_string s).

Coercion text_of_string : string >-> text.

(** Literals are read as texts where a text is expected, also under
    these constructors. *)
#[local] Arguments Some {A} & a.
#[local] Arguments cons {A} & a l.
#[local] Arguments pair {A B} & a b.

Fixpoint text_eqb (s t : text) : bool :=
  match s, t with
  | [], [] => true
  | a :: s', b :: t' => (a =? b)%N && text_eqb s' t'
  | _, _ => false
  end.

(** ** Python values *)

Module Py.

Inductive pyval : Type :=
| PNone
| PBool (b : bool)
| PInt (n : Z)
| PFloat (m e : Z)             (* the finite float m * 2^e *)
| PStr (s : text)
| PList (l : list pyval)
| PDict (d : list (string * pyval)).   (* items in insertion order *)

Inductive exn : Type :=
| AttributeError
| TypeError
| KeyError
| JSONDecodeError
| SystemExit (code : Z).

(** [Timeout] is not a Python outcome: it is what a [while True] loop run
  with a bounded number of iterations yields when the bound is reached. *)
Inductive outcome (A : Type) : Type :=
| Ok (a : A)
| Raise (e : exn)
| Timeout.

Arguments Ok {A} & a.
Arguments Raise {A} e.
Arguments Timeout {A}.

(** Writer over a log of [W] with exceptions. *)
Definition M (W A : Type) : Type := (list W * outcome A)%type.

Class Sequencing (m : Type -> Type) : Type := {
ret : forall {A}, A -> m A;
bind : forall {A B}, m A -> (A -> m B) -> m B
}.

#[export] Instance outcome_seq : Sequencing outcome := {
ret := fun A a => Ok a;
bind := fun A B m k =>
  match m with
  | Ok a => k a
  | Raise e => Raise e
  | Timeout => Timeout
  end
}.

#[export] Instance M_seq (W : Type) : Sequencing (M W) := {
ret := fun A a => ([], Ok a);
bind := fun A B m k =>
  match m with
  | (w, Ok a) => let (w', r) := k a in (w ++ w', r)
  | (w, Raise e) => (w, Raise e)
  | (w, Timeout) => (w, Timeout)
  end
}.

Definition tell {W} (w : W) : M W unit := ([w], Ok tt).
Definition lift {W A} (r : outcome A) : M W A := ([], r).

Definition log {W A} (m : M W A) : list W := fst m.
Definition result {W A} (m : M W A) : outcome A := snd m.

(** Run a computation without keeping its log. *)
Definition quiet {W W' A} (m : M W A) : M W' A := ([], snd m).

End Py.
Import Py.

Declare Scope py_scope.
Delimit Scope py_scope with py.
Notation "x <- m ;; k" := (bind m (fun x => k))
  (at level 61, m at next level, right associativity) : py_scope.
Notation "m ;;; k" := (bind m (fun _ => k))
  (at level 61, right associativity) : py_scope.
Local Open Scope py_scope.

(** ** Truth value, [str] methods, containers *)

(** [bool(v)] *)
Definition truthy (v : pyval) : bool :=
  match v with
  | PNone => false
  | PBool b => b
  | PInt n => negb (n =? 0)
  | PFloat m _ => negb (m =? 0)
  | PStr s => negb (Nat.eqb (List.length s) 0)
  | PList l => negb (Nat.eqb (List.length l) 0)
  | PDict d => negb (Nat.eqb (List.length d) 0)
  end.

(** [a or b] *)
Definition py_or (a b : pyval) : pyval := if truthy a then a else b.

(** Whitespace for [str.strip()], the code points on which
    [str.isspace()] holds: U+0009-000D, U+001C-001F, U+0020, U+0085,
    U+00A0, U+1680, U+2000-200A, U+2028, U+2029, U+202F, U+205F, U+3000. *)
Definition is_space (c : N) : bool :=
  ((9 <=? c) && (c <=? 13) || (28 <=? c) && (c <=? 32)
   || (c =? 133) || (c =? 160) || (c =? 5760)
   || (8192 <=? c) && (c <=? 8202) || (c =? 8232) || (c =? 8233)
   || (c =? 8239) || (c =? 8287) || (c =? 12288))%N.

(** [str(value).lower()] is applied to "True" and "False" only. *)
Definition lower_char (c : ascii) : ascii :=
  let n := nat_of_ascii c in
  if ((65 <=? n) && (n <=? 90))%nat then ascii_of_nat (n + 32) else c.

Fixpoint smap (f : ascii -> ascii) (s : string) : string :=
  match s with
  | EmptyString => EmptyString
  | String c s' => String (f c) (smap f s')
  end.

Definition lower : string -> string := smap lower_char.

Fixpoint lstrip (s : text) : text :=
  match s with
  | [] => []
  | c :: s' => if is_space c then lstrip s' else s
  end.

Definition rstrip (s : text) : text := rev (lstrip (rev s)).

Definition strip (s : text) : text := rstrip (lstrip s).

(** [s.startswith(p)] *)
Fixpoint startswith (s p : text) {struct p} : bool :=
  match p with
  | [] => true
  | a :: p' =>
      match s with
      | [] => false
      | b :: s' => (a =? b)%N && startswith s' p'
      end
  end.

(** [s[1:]] *)
Definition tail1 (s : text) : text :=
  match s with
  | [] => []
  | _ :: s' => s'
  end.

(** [str(b)] for a bool *)
Definition str_of_bool (b : bool) : string := if b then "True" else "False".

(** [value.strip()]: only [str] has the method. *)
Definition method_strip (v : pyval) : outcome text :=
  match v with
  | PStr s => Ok (strip s)
  | _ => Raise AttributeError
  end.

Fixpoint lookup (k : string) (d : list (string * pyval)) : option pyval :=
  match d with
  | [] => None
  | (k', v) :: d' => if String.eqb k k' then Some v else lookup k d'
  end.

(** [d.get(k, default)]: only [dict] has the method. *)
Definition get_default (v : pyval) (k : string) (default : pyval) : outcome pyval :=
  match v with
  | PDict d => Ok (match lookup k d with Some x => x | None => default end)
  | _ => Raise AttributeError
  end.

(** [d.get(k)] *)
Definition get (v : pyval) (k : string) : outcome pyval := get_default v k PNone.

(** [v[k]] with a string key *)
Definition subscript (v : pyval) (k : string) : outcome pyval :=
  match v with
  | PDict d => match lookup k d with Some x => Ok x | None => Raise KeyError end
  | _ => Raise TypeError
  end.

Definition chars (s : text) : list pyval := map (fun c => PStr [c]) s.

(** The items [list.extend(v)] appends: the elements of a list, the keys of
    a dict, the characters of a string; other values are not iterable. *)
Definition iterate (v : pyval) : outcome (list pyval) :=
  match v with
  | PList l => Ok l
  | PDict d => Ok (map (fun kv => PStr (text_of_string (fst kv))) d)
  | PStr s => Ok (chars s)
  | _ => Raise TypeError
  end.

(** [l[:n]], also for negative [n] *)
Definition slice_to {A} (l : list A) (n : Z) : list A :=
  if n <? 0 then firstn (Z.to_nat (Z.of_nat (List.length l) + n)) l
  else firstn (Z.to_nat n) l.

(** [range(lo, hi)] *)
Definition range (lo hi : Z) : list Z :=
  map (fun i => lo + Z.of_nat i) (seq 0 (Z.to_nat (hi - lo))).

(** ** Helper functions of the script *)

(** The process environment, as [os.getenv] reads it. *)
Definition environ : Type := string -> option text.

Definition os_getenv (env : environ) (name : string) : pyval :=
  match env name with
  | Some s => PStr s
  | None => PNone
  end.

Definition not_found_msg : string :=
  "Error: GitHub Personal Access Token (PAT) not found in environment variables.".
Definition please_set_msg : string :=
  "Please set the 'GITHUB_TOKEN' environment variable and try again.".

(** [print] adds a line to the log; [sys.exit(1)] raises [SystemExit]. *)
Definition get_github_token (env : environ) : M string text :=
  let token := os_getenv env "GITHUB_TOKEN" in
  if negb (truthy token) then
    tell not_found_msg ;;;
    tell please_set_msg ;;;
    lift (Raise (SystemExit 1))
  else lift (method_strip token).

Definition handle_boolean (value : pyval) : string :=
  match value with
  | PBool b => lower (str_of_bool b)     (* isinstance(value, bool) *)
  | _ => ""
  end.

(** ** HTTP *)

(** What the script reads of a [requests] response: the status code, the
    body as [response.json()] decodes it ([None] when the body is not
    JSON), and whether [response.links] has a ['next'] entry. *)
Record response : Type := mkResponse {
  status_code : Z;
  body : option pyval;
  has_next : bool
}.

Definition json (r : response) : outcome pyval :=
  match body r with
  | Some v => Ok v
  | None => Raise JSONDecodeError
  end.

Definition USERS_PER_PAGE : Z := 100.
Definition REPOS_PER_PAGE : Z := 100.
Definition MAX_USER_PAGES : Z := 10.
Definition MAX_REPOS_PER_USER : Z := 500.

Section Fetchers.

(** The endpoint a fetcher pages through, with its query (location and
    followers for the search, the user for a listing): the response to
    the request for page [p]. *)
Variable server : Z -> response.

(** [requests.get(url, params)] with [params['page'] = page], for a
    request that is answered; the log keeps the page asked for. *)
Definition requests_get (page : Z) : M Z response :=
  tell page ;;; ret (server page).

(** [users.extend(v)] *)
Definition extend (l : list pyval) (v : pyval) : M Z (list pyval) :=
  items <- lift (iterate v) ;; ret (l ++ items).

(** The [for page in range(1, max_pages + 1)] loop of [fetch_users];
    [break] is the return of the accumulator. *)
Fixpoint fetch_users_loop (pages : list Z) (users : list pyval)
  : M Z (list pyval) :=
  match pages with
  | [] => ret users
  | page :: pages' =>
      response <- requests_get page ;;
      if negb (status_code response =? 200) then ret users
      else
        data <- lift (json response) ;;
        fetched_users <- lift (get_default data "items" (PList [])) ;;
        users <- extend users fetched_users ;;
        if negb (has_next response) then ret users
        else fetch_users_loop pages' users
  end.

Definition fetch_users (max_pages : Z) : M Z (list pyval) :=
  fetch_users_loop (range 1 (max_pages + 1)) [].

(** The [while True] loop of [fetch_repositories], run for at most
    [fuel] iterations. *)
Fixpoint fetch_repositories_loop (max_repos : Z) (fuel : nat)
    (page : Z) (repos : list pyval) : M Z (list pyval) :=
  match fuel with
  | O => lift Timeout
  | S fuel' =>
      response <- requests_get page ;;
      if negb (status_code response =? 200) then ret repos
      else
        data <- lift (json response) ;;
        if negb (truthy data) then ret repos
        else
          repos <- extend repos data ;;
          if (Z.of_nat (List.length repos) >=? max_repos)
             || negb (has_next response)
          then ret repos
          else fetch_repositories_loop max_repos fuel' (page + 1) repos
  end.

(** The iterations [fetch_repositories] is run for: one more than the
    cap, a bound the loop is shown below never to reach. *)
Definition enough (max_repos : Z) : nat := S (Z.to_nat max_repos).

(** The list [repos] when the loop is left. *)
Definition accumulated (max_repos : Z) : M Z (list pyval) :=
  fetch_repositories_loop max_repos (enough max_repos) 1 [].

Definition fetch_repositories (max_repos : Z) : M Z (list pyval) :=
  repos <- accumulated max_repos ;;
  ret (slice_to repos max_repos).

End Fetchers.

(** [fetch_user_details]: [server] is the endpoint, which answers the
    request for a user name. *)
Definition fetch_user_details (server : pyval -> response) (username : pyval)
  : outcome pyval :=
  let response := server username in
  if negb (status_code response =? 200) then ret (PDict [])
  else json response.

(** What a successful page adds to the accumulator: for [fetch_users] the
    value under "items" of the body, for [fetch_repositories] the body. *)
Definition search_batch (r : response) : outcome (list pyval) :=
  data <- json r ;;
  fetched_users <- get_default data "items" (PList []) ;;
  iterate fetched_users.

Definition listing_batch (r : response) : outcome (list pyval) :=
  data <- json r ;;
  iterate data.

Definition or_nil (r : outcome (list pyval)) : list pyval :=
  match r with Ok l => l | _ => [] end.

Definition search_items (r : response) : list pyval := or_nil (search_batch r).
Definition listing_items (r : response) : list pyval := or_nil (listing_batch r).

(** A page of the search that [fetch_users] takes in without an error. *)
Definition search_page_ok (r : response) : bool :=
  (status_code r =? 200) &&
  match search_batch r with Ok _ => true | _ => false end.

(** ** The records of the two tables and the loop of [main] *)

Module User.
Record t : Type := mk {
  login : pyval;
  name : pyval;
  company : text;
  location : pyval;
  email : pyval;
  hireable : string;
  bio : pyval;
  public_repos : pyval;
  followers : pyval;
  following : pyval;
  created_at : pyval
}.
End User.

Module Repo.
Record t : Type := mk {
  login : pyval;
  full_name : pyval;
  created_at : pyval;
  stargazers_count : pyval;
  watchers_count : pyval;
  language : pyval;
  has_projects : string;
  has_wiki : string;
  license_name : pyval
}.
End Repo.

(** ** The uppercase mapping *)

(** What is used of the mapping [str.upper()] applies to each code point:
    no code point is mapped to the empty text; mapping twice is mapping
    once; whitespace is left alone and nothing else is mapped to
    whitespace; "@" is left alone and nothing else is mapped to a text
    with "@". *)
Definition upper_table_ok (U : N -> text) : Prop :=
  (forall c, U c <> []) /\
  (forall c, flat_map U (U c) = U c) /\
  (forall c, is_space c = true -> U c = [c]) /\
  (forall c d, is_space c = false -> In d (U c) -> is_space d = false) /\
  U 64%N = [64%N] /\
  (forall c, In 64%N (U c) -> c = 64%N).

(** The mapping of Python on the ASCII letters and on three more code
    points, for the examples: a-z, U+00DF (sharp s, to "SS"), U+00E9
    (e acute, to U+00C9), U+0149 (n preceded by apostrophe, to U+02BC
    "N"); every other code point is left alone. *)
Definition sample_upper (c : N) : text :=
  if ((97 <=? c) && (c <=? 122))%N then [(c - 32)%N]
  else if (c =? 223)%N then [83%N; 83%N]
  else if (c =? 233)%N then [201%N]
  else if (c =? 329)%N then [700%N; 78%N]
  else [c].

Section Script.

(** The uppercase mapping of the interpreter: the text a code point is
    mapped to by [str.upper()]. *)
Variable upper_of : N -> text.

(** [s.upper()] *)
Definition upper (s : text) : text := flat_map upper_of s.

Definition clean_company (company : pyval) : outcome text :=
  if negb (truthy company) then ret []
  else
    company <- method_strip company ;;
    let company := if startswith company "@" then tail1 company else company in
    let company := upper company in
    ret company.

(** The [user_data] dict literal of [main]. *)
Definition user_data (details : pyval) : outcome User.t :=
  login <- get_default details "login" (PStr "") ;;
  name <- get details "name" ;;
  company <- get details "company" ;;
  company <- clean_company company ;;
  location <- get details "location" ;;
  email <- get details "email" ;;
  hireable <- get details "hireable" ;;
  bio <- get details "bio" ;;
  public_repos <- get_default details "public_repos" (PInt 0) ;;
  followers <- get_default details "followers" (PInt 0) ;;
  following <- get_default details "following" (PInt 0) ;;
  created_at <- get_default details "created_at" (PStr "") ;;
  ret (User.mk login (py_or name (PStr "")) company
         (py_or location (PStr "")) (py_or email (PStr ""))
         (handle_boolean hireable) (py_or bio (PStr ""))
         public_repos followers following created_at).

(** [repo['license']['key'] if repo.get('license') else ''] *)
Definition license_name (repo : pyval) : outcome pyval :=
  license <- get repo "license" ;;
  if truthy license
  then (license <- subscript repo "license" ;; subscript license "key")
  else ret (PStr "").

(** The [repo_data] dict literal of [main]. *)
Definition repo_data (username repo : pyval) : outcome Repo.t :=
  full_name <- get_default repo "full_name" (PStr "") ;;
  created_at <- get_default repo "created_at" (PStr "") ;;
  stargazers_count <- get_default repo "stargazers_count" (PInt 0) ;;
  watchers_count <- get_default repo "watchers_count" (PInt 0) ;;
  language <- get repo "language" ;;
  has_projects <- get repo "has_projects" ;;
  has_wiki <- get repo "has_wiki" ;;
  license <- license_name repo ;;
  ret (Repo.mk username full_name created_at stargazers_count watchers_count
         (py_or language (PStr "")) (handle_boolean has_projects)
         (handle_boolean has_wiki) license).

(** The responses of the server during one run.  The requests for the
    details and the repositories of a user carry the position [idx] of the
    user in the loop, so that the server may answer the same user
    differently at different times. *)
Record network : Type := mkNetwork {
  search : Z -> response;
  details_of : nat -> pyval -> response;
  repos_of : nat -> pyval -> Z -> response
}.

(** [for repo in repos: ... all_repositories.append(repo_data)] *)
Fixpoint repos_loop (username : pyval) (repos : list pyval)
    (all_repositories : list Repo.t) : outcome (list Repo.t) :=
  match repos with
  | [] => ret all_repositories
  | repo :: repos' =>
      row <- repo_data username repo ;;
      repos_loop username repos' (all_repositories ++ [row])
  end.

(** [for idx, user in enumerate(users, start=1): ...] *)
Fixpoint users_loop (net : network) (idx : nat) (users : list pyval)
    (processed_users : list User.t) (all_repositories : list Repo.t)
  : outcome (list User.t * list Repo.t) :=
  match users with
  | [] => ret (processed_users, all_repositories)
  | user :: users' =>
      username <- get user "login" ;;
      details <- fetch_user_details (details_of net idx) username ;;
      if negb (truthy details)
      then users_loop net (S idx) users' processed_users all_repositories
      else
        row <- user_data details ;;
        let processed_users := processed_users ++ [row] in
        repos <- result (fetch_repositories (repos_of net idx username)
                           MAX_REPOS_PER_USER) ;;
        all_repositories <- repos_loop username repos all_repositories ;;
        users_loop net (S idx) users' processed_users all_repositories
  end.

(** [main], up to the two lists of records the tables are made of; the log
    is what the token loader printed. *)
Definition main (env : environ) (net : network)
  : M string (list User.t * list Repo.t) :=
  GITHUB_TOKEN <- get_github_token env ;;
  users <- quiet (fetch_users (search net) MAX_USER_PAGES) ;;
  lift (users_loop net 1 users [] []).

(** What one iteration of the loop of [fetch_repositories] does with the
    response to its request: leave the loop with an outcome, or go on to
    the next page with a longer list. *)
Inductive verdict : Type :=
| Leave (o : outcome (list pyval))
| Continue (repos : list pyval).

Definition iteration (max_repos : Z) (r : response) (repos : list pyval)
  : verdict :=
  if negb (status_code r =? 200) then Leave (Ok repos)
  else
    match json r with
    | Ok data =>
        if negb (truthy data) then Leave (Ok repos)
        else
          match iterate data with
          | Ok items =>
              let repos := repos ++ items in
              if (Z.of_nat (List.length repos) >=? max_repos)
                 || negb (has_next r)
              then Leave (Ok repos)
              else Continue repos
          | Raise e => Leave (Raise e)
          | Timeout => Leave Timeout
          end
    | Raise e => Leave (Raise e)
    | Timeout => Leave Timeout
    end.

(** The distance of the list [repos] to the cap. *)
Definition room (max_repos : Z) (repos : list pyval) : nat :=
  Z.to_nat (max_repos - Z.of_nat (List.length repos)).

(** A server whose every page is an empty page advertising a next one. *)
Definition endless_empty_pages (page : Z) : response :=
  mkResponse 200 (Some (PDict [("items", PList [])])) true.

(** A server with [n] pages of one item each, for the search and for a
    listing. *)
Definition search_pages (n : Z) (page : Z) : response :=
  mkResponse 200 (Some (PDict [("items", PList [PInt page])])) (page <? n).

Definition listing_pages (n : Z) (page : Z) : response :=
  mkResponse 200 (Some (PList [PInt page; PInt (- page)])) (page <? n).

(** The same servers with page [k] answered by an error. *)
Definition failing_at (k : Z) (server : Z -> response) (page : Z) : response :=
  if page =? k then mkResponse 503 None false else server page.

(** A run of the script: the search finds alice, bob and carol; the
    details of alice and bob are served, those of carol are not; alice has
    three repositories, one of them without a license, bob has none. *)
Definition demo_env : environ :=
  fun name => if String.eqb name "GITHUB_TOKEN" then Some "ghp_demo" else None.

Definition demo_user (login : string) : pyval := PDict [("login", PStr login)].

(** [username == login] *)
Definition named (username : pyval) (login : string) : bool :=
  match username with
  | PStr s => text_eqb s login
  | _ => false
  end.

Definition demo_net : network := {|
  search := fun page =>
    mkResponse 200
      (Some (PDict [("total_count", PInt 3);
                    ("items", PList [demo_user "alice"; demo_user "bob";
                                     demo_user "carol"])]))
      false;
  details_of := fun idx username =>
    if named username "alice" then
      mkResponse 200
        (Some (PDict [("login", PStr "alice"); ("company", PStr " @acme ");
                      ("hireable", PBool true); ("followers", PInt 250)]))
        false
    else if named username "bob" then
      mkResponse 200
        (Some (PDict [("login", PStr "bob"); ("company", PNone);
                      ("hireable", PNone); ("followers", PInt 300)]))
        false
    else mkResponse 404 (Some (PDict [("message", PStr "Not Found")])) false;
  repos_of := fun idx username page =>
    if named username "alice" then
      mkResponse 200
        (Some (PList
           [PDict [("full_name", PStr "alice/one");
                   ("license", PDict [("key", PStr "mit")])];
            PDict [("full_name", PStr "alice/two"); ("license", PNone)];
            PDict [("full_name", PStr "alice/three");
                   ("has_wiki", PBool false);
                   ("license", PDict [("key", PStr "apache-2.0")])]]))
        false
    else if named username "bob" then mkResponse 200 (Some (PList [])) false
    else mkResponse 404 None false
|}.

(** The same servers with page [k] answered by status 200 and a body that
    is a list for the search (not a mapping), a number for a listing. *)
Definition malformed_at (k : Z) (bad : pyval) (server : Z -> response)
    (page : Z) : response :=
  if page =? k then mkResponse 200 (Some bad) true else server page.

(** ** Predicates the statements use *)

(** [enumerate(users, start)] *)
Definition enumerate {A} (start : nat) (l : list A) : list (nat * A) :=
  combine (seq start (List.length l)) l.

(** The details [main] gets for the user at position [idx]. *)
Definition fetched_details (net : network) (iu : nat * pyval) : outcome pyval :=
  username <- get (snd iu) "login" ;;
  fetch_user_details (details_of net (fst iu)) username.

(** The detail fetch of a user succeeded: [main] does not skip the user. *)
Definition detail_ok (net : network) (iu : nat * pyval) : bool :=
  match fetched_details net iu with
  | Ok details => truthy details
  | _ => false
  end.

(** The user record [row] was made from the details fetched for the user
    at position [idx]. *)
Definition made_from (net : network) (iu : nat * pyval) (row : User.t) : Prop :=
  exists details,
    fetched_details net iu = Ok details /\ truthy details = true /\
    user_data details = Ok row.

(** The repository records [rows] all carry the login of the user. *)
Definition rows_of (iu : nat * pyval) (rows : list Repo.t) : Prop :=
  forall r, In r rows -> get (snd iu) "login" = Ok (Repo.login r).

(** A text that begins neither with whitespace nor with ["@"]. *)
Definition settled (t : text) : bool :=
  match t with
  | [] => true
  | c :: _ => negb (is_space c) && negb (c =? 64)%N
  end.

(** The text [clean_company] computes from a non-empty string. *)
Definition cleaned (s : text) : text :=
  let t := strip s in upper (if startswith t "@" then tail1 t else t).

(** What a requested page adds to the accumulator of a fetcher: its
    batch when it is answered with status 200, nothing otherwise. *)
Definition taken (items : response -> list pyval) (server : Z -> response)
    (page : Z) : list pyval :=
  if status_code (server page) =? 200 then items (server page) else [].

(** The three texts of a boolean column. *)
Definition tri_state (s : string) : Prop :=
  s = "true" \/ s = "false" \/ s = "".

(** What [v or ''] can be: the empty text or a value that is true. *)
Definition text_or_value (v : pyval) : Prop :=
  v = PStr "" \/ truthy v = true.

(** A text as [clean_company] leaves it: upper-cased, without whitespace
    at its end. *)
Definition company_text (t : text) : Prop :=
  upper t = t /\ rstrip t = t.

Definition user_row_ok (row : User.t) : Prop :=
  text_or_value (User.name row) /\ company_text (User.company row) /\
  text_or_value (User.location row) /\ text_or_value (User.email row) /\
  tri_state (User.hireable row) /\ text_or_value (User.bio row).

Definition repo_row_ok (row : Repo.t) : Prop :=
  text_or_value (Repo.language row) /\
  tri_state (Repo.has_projects row) /\ tri_state (Repo.has_wiki row).

Definition is_str (v : pyval) : bool :=
  match v with PStr _ => true | _ => false end.

Definition is_dict (v : pyval) : bool :=
  match v with PDict _ => true | _ => false end.

(** [d.get(k, default)] on the items of a dict. *)
Definition item_or (d : list (string * pyval)) (k : string) (default : pyval)
  : pyval :=
  match lookup k d with Some v => v | None => default end.

(** A text that does not begin with whitespace. *)
Definition head_kept (s : text) : bool :=
  match s with
  | [] => true
  | c :: _ => negb (is_space c)
  end.

(** * Properties *)

(** ** [str] methods *)

Lemma length_lstrip (s : text) : (List.length (lstrip s) <= List.length s)%nat.
Proof. induction s as [|c s IH]; simpl; [lia|]. destruct (is_space c); simpl; lia. Qed.

Lemma lstrip_suffix (s : text) :
  exists pre, s = pre ++ lstrip s /\ forallb is_space pre = true.
Proof.
  induction s as [|c s (pre & IH & Hpre)]; [now exists []|]. simpl.
  destruct (is_space c) eqn:E; [|now exists []].
  exists (c :: pre). simpl. now rewrite <- IH, E.
Qed.

Lemma head_kept_lstrip (s : text) : head_kept (lstrip s) = true.
Proof.
  induction s as [|c s IH]; [reflexivity|]. simpl.
  destruct (is_space c) eqn:E; [exact IH | simpl; now rewrite E].
Qed.

Lemma lstrip_head_kept (s : text) : head_kept s = true -> lstrip s = s.
Proof.
  destruct s as [|c s]; [reflexivity|]. simpl. intros H.
  apply negb_true_iff in H. now rewrite H.
Qed.

Lemma lstrip_idem (s : text) : lstrip (lstrip s) = lstrip s.
Proof. apply lstrip_head_kept, head_kept_lstrip. Qed.

Lemma rstrip_snoc (a : text) (c : N) :
  rstrip (a ++ [c]) = if is_space c then rstrip a else a ++ [c].
Proof.
  unfold rstrip. rewrite rev_app_distr. simpl.
  destruct (is_space c); [reflexivity|]. simpl. now rewrite rev_involutive.
Qed.

Lemma rstrip_idem (s : text) : rstrip (rstrip s) = rstrip s.
Proof. unfold rstrip. now rewrite rev_involutive, lstrip_idem. Qed.

Lemma length_rstrip (s : text) : (List.length (rstrip s) <= List.length s)%nat.
Proof.
  unfold rstrip. rewrite length_rev. pose proof (length_lstrip (rev s)) as H.
  now rewrite length_rev in H.
Qed.

Lemma length_strip (s : text) : (List.length (strip s) <= List.length s)%nat.
Proof.
  unfold strip. pose proof (length_rstrip (lstrip s)). pose proof (length_lstrip s). lia.
Qed.

Lemma rstrip_prefix (s : text) :
  exists w, s = rstrip s ++ w /\ forallb is_space w = true.
Proof.
  induction s as [|c a (w & IH & Hw)] using rev_ind; [now exists []|].
  rewrite rstrip_snoc. destruct (is_space c) eqn:E.
  - exists (w ++ [c]). rewrite app_assoc, <- IH. split; [reflexivity|].
    rewrite forallb_app, Hw. simpl. now rewrite E.
  - exists []. now rewrite app_nil_r.
Qed.

Lemma rstrip_last_kept (s a : text) (c : N) :
  rstrip s = a ++ [c] -> is_space c = false.
Proof.
  induction s as [|d b IH] using rev_ind.
  - intros H. now destruct a.
  - rewrite rstrip_snoc. destruct (is_space d) eqn:E; [exact IH|].
    intros H. apply app_inj_tail in H as [_ <-]. exact E.
Qed.

Lemma rstrip_fixed_tail (c : N) (s : text) :
  rstrip (c :: s) = c :: s -> rstrip s = s.
Proof.
  destruct s as [|d a _] using rev_ind; [reflexivity|].
  change (c :: a ++ [d]) with ((c :: a) ++ [d]). rewrite !rstrip_snoc.
  destruct (is_space d); [|reflexivity].
  intros H. pose proof (length_rstrip (c :: a)) as HL.
  rewrite H, length_app in HL. simpl in HL. lia.
Qed.

Lemma head_kept_rstrip (s : text) : head_kept s = true -> head_kept (rstrip s) = true.
Proof.
  destruct (rstrip_prefix s) as (w & H & _). intros Hs.
  destruct (rstrip s) as [|c r]; [reflexivity|]. rewrite H in Hs. exact Hs.
Qed.

Lemma rstrip_strip (s : text) : rstrip (strip s) = strip s.
Proof. apply rstrip_idem. Qed.

Lemma strip_idem (s : text) : strip (strip s) = strip s.
Proof.
  unfold strip.
  rewrite (lstrip_head_kept (rstrip (lstrip s)))
    by (apply head_kept_rstrip, head_kept_lstrip).
  apply rstrip_idem.
Qed.

Lemma strip_head_space (c : N) (t : text) :
  is_space c = true -> strip (c :: t) = strip t.
Proof. intros H. unfold strip. simpl. now rewrite H. Qed.

Lemma strip_fixed (c : N) (t : text) :
  is_space c = false -> rstrip (c :: t) = c :: t ->
  strip (c :: t) = c :: t.
Proof. intros H Hr. unfold strip. simpl lstrip. now rewrite H. Qed.

(** A text between what [strip] removes at both ends. *)
Lemma strip_inside (s : text) :
  exists pre post,
    s = pre ++ strip s ++ post /\
    forallb is_space pre = true /\ forallb is_space post = true.
Proof.
  destruct (lstrip_suffix s) as (pre & Hpre & Hp).
  destruct (rstrip_prefix (lstrip s)) as (post & Hpost & Hq).
  exists pre, post. unfold strip. now rewrite <- Hpost.
Qed.

Lemma head_kept_strip (s : text) : head_kept (strip s) = true.
Proof. apply head_kept_rstrip, head_kept_lstrip. Qed.

Lemma length_drop_at (u : text) :
  (List.length (if startswith u "@" then tail1 u else u) <= List.length u)%nat.
Proof. destruct (startswith u "@"); [destruct u; simpl|]; lia. Qed.

Lemma startswith_cons_at (c : N) (u : text) :
  startswith (c :: u) "@" = (64 =? c)%N.
Proof.
  change (text_of_string "@") with [64%N]. cbn [startswith]. apply andb_true_r.
Qed.

Lemma startswith_at (u : text) :
  startswith u "@" = true -> u = 64%N :: tail1 u.
Proof.
  destruct u as [|c u]; [discriminate|]. rewrite startswith_cons_at.
  intros H. apply N.eqb_eq in H. now subst.
Qed.

Lemma app_inj_length {A} (a1 a2 b1 b2 : list A) :
  a1 ++ b1 = a2 ++ b2 -> List.length a1 = List.length a2 -> a1 = a2 /\ b1 = b2.
Proof.
  revert a2. induction a1 as [|x a1 IH]; intros [|y a2] H HL; try discriminate HL.
  - now split.
  - simpl in H. injection H as -> H. injection HL as HL.
    destruct (IH _ H HL) as [-> ->]. now split.
Qed.

Lemma clean_company_str (s : text) :
  clean_company (PStr s)
  = Ok (if Nat.eqb (List.length s) 0 then [] else cleaned s).
Proof.
  unfold clean_company; simpl. destruct (Nat.eqb (List.length s) 0); reflexivity.
Qed.

Lemma cleaned_empty_strip (s : text) : strip s = [] -> cleaned s = [].
Proof. unfold cleaned. now intros ->. Qed.

(** *** With the facts about the uppercase mapping *)

Section CaseTable.

Hypothesis upper_ok : upper_table_ok upper_of.

Lemma upper_of_nonempty (c : N) : upper_of c <> [].
Proof. apply upper_ok. Qed.

Lemma upper_of_idem (c : N) : upper (upper_of c) = upper_of c.
Proof. apply upper_ok. Qed.

Lemma upper_of_space (c : N) : is_space c = true -> upper_of c = [c].
Proof. apply upper_ok. Qed.

Lemma upper_of_kept (c d : N) :
  is_space c = false -> In d (upper_of c) -> is_space d = false.
Proof. apply upper_ok. Qed.

Lemma upper_of_at : upper_of 64%N = [64%N].
Proof. apply upper_ok. Qed.

Lemma upper_of_at_only (c : N) : In 64%N (upper_of c) -> c = 64%N.
Proof. apply upper_ok. Qed.

Lemma upper_app (a b : text) : upper (a ++ b) = upper a ++ upper b.
Proof. apply flat_map_app. Qed.

Lemma upper_cons (c : N) (s : text) : upper (c :: s) = upper_of c ++ upper s.
Proof. reflexivity. Qed.

Lemma upper_idem (s : text) : upper (upper s) = upper s.
Proof.
  induction s as [|c s IH]; [reflexivity|].
  now rewrite upper_cons, upper_app, upper_of_idem, IH.
Qed.

Lemma length_upper (s : text) : (List.length s <= List.length (upper s))%nat.
Proof.
  induction s as [|c s IH]; [simpl; lia|].
  rewrite upper_cons, length_app. pose proof (upper_of_nonempty c).
  destruct (upper_of c); [congruence | simpl; lia].
Qed.

Lemma upper_nil_iff (s : text) : upper s = [] <-> s = [].
Proof.
  split; [|now intros ->]. intros H. pose proof (length_upper s) as HL.
  rewrite H in HL. destruct s; [reflexivity | simpl in HL; lia].
Qed.

(** The parts of a text that [upper] leaves alone are left alone. *)
Lemma upper_fixed_app (a b : text) :
  upper (a ++ b) = a ++ b -> upper a = a /\ upper b = b.
Proof.
  rewrite upper_app. intros H. apply app_inj_length; [exact H|].
  pose proof (length_upper a). pose proof (length_upper b).
  apply (f_equal (@List.length N)) in H. rewrite !length_app in H. lia.
Qed.

Lemma lstrip_upper (s : text) : lstrip (upper s) = upper (lstrip s).
Proof.
  induction s as [|c s IH]; [reflexivity|].
  rewrite upper_cons. simpl lstrip at 2. destruct (is_space c) eqn:E.
  - rewrite upper_of_space by exact E. simpl. now rewrite E.
  - pose proof (upper_of_nonempty c) as Hne.
    pose proof (upper_of_kept c) as Hk.
    rewrite (upper_cons c s).
    destruct (upper_of c) as [|d ds] eqn:Eu; [congruence|].
    cbn [app lstrip]. now rewrite (Hk d E (or_introl eq_refl)).
Qed.

Lemma rstrip_upper (s : text) : rstrip (upper s) = upper (rstrip s).
Proof.
  induction s as [|c a IH] using rev_ind; [reflexivity|].
  rewrite upper_app, rstrip_snoc. change (upper [c]) with (upper_of c ++ []).
  rewrite app_nil_r. destruct (is_space c) eqn:E.
  - rewrite upper_of_space by exact E. now rewrite rstrip_snoc, E.
  - destruct (exists_last (upper_of_nonempty c)) as (ds & d & Eu).
    rewrite upper_app. change (upper [c]) with (upper_of c ++ []).
    rewrite app_nil_r, Eu, app_assoc, rstrip_snoc.
    rewrite (upper_of_kept c d E); [reflexivity|].
    rewrite Eu. apply in_elt.
Qed.

Lemma strip_upper (s : text) : strip (upper s) = upper (strip s).
Proof. unfold strip. now rewrite lstrip_upper, rstrip_upper. Qed.

Lemma startswith_upper_at (u : text) :
  startswith (upper u) "@" = startswith u "@".
Proof.
  destruct u as [|c u]; [reflexivity|]. rewrite upper_cons.
  pose proof (upper_of_nonempty c) as Hne.
  destruct (upper_of c) as [|d ds] eqn:Eu; [congruence|].
  cbn [app]. rewrite !startswith_cons_at. destruct (N.eqb_spec 64 c) as [<-|Hc].
  - rewrite upper_of_at in Eu. injection Eu as <- _. reflexivity.
  - apply N.eqb_neq. intros <-. apply Hc. symmetry. apply upper_of_at_only.
    rewrite Eu. now left.
Qed.

Lemma tail1_upper_at (u : text) :
  startswith u "@" = true -> tail1 (upper u) = upper (tail1 u).
Proof.
  intros H. rewrite (startswith_at u H) at 1.
  now rewrite upper_cons, upper_of_at.
Qed.

Lemma rstrip_cleaned (s : text) : rstrip (cleaned s) = cleaned s.
Proof.
  unfold cleaned. rewrite rstrip_upper. f_equal.
  pose proof (rstrip_strip s) as H.
  destruct (strip s) as [|c u]; [reflexivity|].
  destruct (startswith (c :: u) "@"); [|exact H].
  simpl. now apply rstrip_fixed_tail with c.
Qed.

Lemma upper_cleaned (s : text) : upper (cleaned s) = cleaned s.
Proof. unfold cleaned. apply upper_idem. Qed.

Lemma cleaned_upper (s : text) : cleaned (upper s) = cleaned s.
Proof.
  unfold cleaned. cbv zeta. rewrite strip_upper, startswith_upper_at.
  destruct (startswith (strip s) "@") eqn:E.
  - rewrite tail1_upper_at by exact E. apply upper_idem.
  - apply upper_idem.
Qed.

(** On a text that [upper] leaves alone, [clean_company] only strips. *)
Lemma cleaned_of_fixed (t : text) :
  upper t = t ->
  cleaned t = if startswith (strip t) "@" then tail1 (strip t) else strip t.
Proof.
  intros Hu. unfold cleaned. cbv zeta.
  destruct (strip_inside t) as (pre & post & Ht & _).
  rewrite Ht in Hu. apply upper_fixed_app in Hu as [_ Hu].
  apply upper_fixed_app in Hu as [Hu _].
  destruct (startswith (strip t) "@") eqn:E; [|exact Hu].
  rewrite (startswith_at _ E) in Hu.
  change (64%N :: tail1 (strip t)) with ([64%N] ++ tail1 (strip t)) in Hu.
  now apply upper_fixed_app in Hu.
Qed.

(** A text that is right-stripped and upper-cased is left alone by
    [clean_company] exactly when it is [settled]. *)
Lemma cleaned_fixed_iff (t : text) :
  rstrip t = t -> upper t = t ->
  (cleaned t = t <-> settled t = true).
Proof.
  intros Hr Hu. rewrite (cleaned_of_fixed t Hu).
  destruct t as [|c t]; [split; reflexivity|].
  unfold settled. destruct (is_space c) eqn:Es.
  - split; [|discriminate]. intros H. exfalso.
    pose proof (length_drop_at (strip (c :: t))) as HL.
    unfold text in H, HL.
    rewrite H, strip_head_space in HL by exact Es.
    pose proof (length_strip t). simpl in HL. lia.
  - rewrite (strip_fixed c t Es Hr), startswith_cons_at, N.eqb_sym.
    destruct (c =? 64)%N; simpl negb; simpl andb.
    + split; [|discriminate]. intros H. exfalso.
      apply (f_equal (@List.length N)) in H. simpl in H. lia.
    + split; reflexivity.
Qed.

End CaseTable.

(** ** Boolean normalisation *)

(** C2: [handle_boolean] maps the boolean true to "true" and the boolean
    false to "false", the lowercase form of [str(v)]; every other value,
    [None] included, is mapped to the empty string. *)
Theorem handle_boolean_spec (v : pyval) :
  handle_boolean v =
  match v with
  | PBool true => "true"
  | PBool false => "false"
  | _ => ""
  end.
Proof. destruct v as [ | [|] | | | | | ]; reflexivity. Qed.

(** C4, as the specification states it, fails: the boolean false and an absent
    value are normalised to different texts. *)
Lemma handle_boolean_false_is_not_absent :
  handle_boolean (PBool false) = "false" /\
  handle_boolean PNone = "" /\
  handle_boolean (PBool false) <> handle_boolean PNone.
Proof. repeat split. discriminate. Qed.

(** C4, amended: [handle_boolean] keeps the boolean false ("false") apart
    from an absent value (""); what it merges with an absent value is every
    value that is not a boolean, and nothing else. *)
Theorem handle_boolean_absent_iff (v : pyval) :
  handle_boolean v = handle_boolean PNone <-> (forall b, v <> PBool b).
Proof.
  split.
  - intros H b ->. destruct b; discriminate H.
  - intros H. destruct v; try reflexivity. now destruct (H b).
Qed.

(** ** Company normalisation *)

(** C3, amended: normalising a normalised company once more changes
    nothing exactly when the normalised text begins neither with "@" nor
    with whitespace (that of [str.strip()]); this for every text and for
    every uppercase mapping that has the facts of [upper_table_ok]. *)
Theorem clean_company_idempotent_iff
    (Hok : upper_table_ok upper_of) (s : text) :
  exists t, clean_company (PStr s) = Ok t /\
            (clean_company (PStr t) = Ok t <-> settled t = true).
Proof.
  rewrite clean_company_str.
  destruct (Nat.eqb (List.length s) 0).
  - exists []. split; [reflexivity|]. split; reflexivity.
  - exists (cleaned s). split; [reflexivity|].
    rewrite clean_company_str.
    destruct (Nat.eqb (List.length (cleaned s)) 0) eqn:E.
    + apply Nat.eqb_eq in E. destruct (cleaned s); [|discriminate E].
      split; reflexivity.
    + rewrite <- (cleaned_fixed_iff Hok (cleaned s));
        [| apply (rstrip_cleaned Hok) | apply (upper_cleaned Hok)].
      split; [intros H; now injection H | intros ->; reflexivity].
Qed.

(** ** The token loader *)

(** C7, as the specification states it, fails: a credential made of whitespace is
    empty after trimming, and the loader returns it (trimmed to the empty
    text) instead of aborting. *)
Lemma blank_token_is_returned :
  let env : environ :=
    fun name => if String.eqb name "GITHUB_TOKEN" then Some "   " else None in
  strip "   " = "" /\
  get_github_token env = ([], Ok "").
Proof. split; reflexivity. Qed.

(** C7, amended: the loader prints its two-line message and exits with
    status 1 when the variable is unset or holds the empty text, the test
    being made before trimming; for every other value it prints nothing and
    returns the value trimmed: the value without the whitespace before its
    first and after its last code point that is not whitespace. *)
Theorem get_github_token_spec (env : environ) :
  ((env "GITHUB_TOKEN" = None \/ env "GITHUB_TOKEN" = Some "") ->
   get_github_token env
   = ([not_found_msg; please_set_msg], Raise (SystemExit 1))) /\
  (forall token, env "GITHUB_TOKEN" = Some token -> token <> "" ->
   get_github_token env = ([], Ok (strip token)) /\
   exists pre post,
     token = pre ++ strip token ++ post /\
     forallb is_space pre = true /\ forallb is_space post = true /\
     head_kept (strip token) = true /\
     (forall a c, strip token = a ++ [c] -> is_space c = false)).
Proof.
  unfold get_github_token, os_getenv. split.
  - intros [-> | ->]; reflexivity.
  - intros token -> Hne. split.
    + destruct token; [now destruct Hne | reflexivity].
    + destruct (strip_inside token) as (pre & post & Ht & Hpre & Hpost).
      exists pre, post. repeat split; try assumption.
      * apply head_kept_strip.
      * intros a c H. exact (rstrip_last_kept (lstrip token) a c H).
Qed.

Lemma get_github_token_spec_witness :
  get_github_token (fun _ => None)
  = ([not_found_msg; please_set_msg], Raise (SystemExit 1)) /\
  get_github_token (fun _ => Some " ghp_abc ") = ([], Ok "ghp_abc") /\
  get_github_token (fun _ => Some [160; 116; 111; 107; 12288]%N) = ([], Ok "tok") /\
  get_github_token (fun _ => Some [160]%N) = ([], Ok "").
Proof.
  split; [|split; [|split]].
  - apply (proj1 (get_github_token_spec (fun _ => None))). now left.
  - apply (proj2 (get_github_token_spec (fun _ => Some " ghp_abc ")) " ghp_abc ");
      [reflexivity | discriminate].
  - apply (proj2 (get_github_token_spec (fun _ => Some [160; 116; 111; 107; 12288]%N))
             [160; 116; 111; 107; 12288]%N); [reflexivity | discriminate].
  - apply (proj2 (get_github_token_spec (fun _ => Some [160]%N)) [160]%N);
      [reflexivity | discriminate].
Defined.

(** ** The license of a repository *)

(** C8, as the specification states it, fails: a license object without a "key"
    entry makes the access, and so the construction of the record, raise
    [KeyError]. *)
Lemma license_without_key_raises :
  let repo := PDict [("full_name", PStr "octocat/hello");
                     ("license", PDict [("name", PStr "MIT License")])] in
  license_name repo = Raise KeyError /\
  repo_data (PStr "octocat") repo = Raise KeyError.
Proof. split; reflexivity. Qed.

(** C8, amended: for a repository mapping whose license is absent, null or
    any other false value the license name is the empty text, and for one
    whose license is a mapping with a "key" entry it is the value of that
    entry; no error is raised in either case. *)
Theorem license_name_defensive (d : list (string * pyval)) :
  (lookup "license" d = None -> license_name (PDict d) = Ok (PStr "")) /\
  (forall v, lookup "license" d = Some v -> truthy v = false ->
             license_name (PDict d) = Ok (PStr "")) /\
  (forall l k, lookup "license" d = Some (PDict l) -> lookup "key" l = Some k ->
               license_name (PDict d) = Ok k).
Proof.
  unfold license_name, get, get_default, subscript; simpl.
  split; [|split].
  - intros ->. reflexivity.
  - intros v -> ->. reflexivity.
  - intros l k -> Hk. destruct l as [|kv l]; [discriminate Hk|].
    cbn [truthy List.length Nat.eqb negb]. now rewrite Hk.
Qed.

Lemma license_name_defensive_witness :
  license_name (PDict [("full_name", PStr "a/b")]) = Ok (PStr "") /\
  license_name (PDict [("license", PNone)]) = Ok (PStr "") /\
  license_name (PDict [("license", PDict [("key", PStr "mit")])]) = Ok (PStr "mit").
Proof.
  split; [|split].
  - apply (proj1 (license_name_defensive _)). reflexivity.
  - apply (proj1 (proj2 (license_name_defensive _)) PNone); reflexivity.
  - apply (proj2 (proj2 (license_name_defensive _)) [("key", PStr "mit")]); reflexivity.
Defined.

(** ** Ranges *)

Lemma range_nil (lo hi : Z) : hi <= lo -> range lo hi = [].
Proof.
  intros H. unfold range. replace (Z.to_nat (hi - lo)) with 0%nat by lia. reflexivity.
Qed.

Lemma range_cons (lo hi : Z) : lo < hi -> range lo hi = lo :: range (lo + 1) hi.
Proof.
  intros H. unfold range.
  replace (Z.to_nat (hi - lo)) with (S (Z.to_nat (hi - (lo + 1)))) by lia.
  simpl. f_equal; [lia|].
  rewrite <- seq_shift, map_map. apply map_ext. intros i. lia.
Qed.

Lemma range_snoc (lo hi : Z) : lo <= hi -> range lo (hi + 1) = range lo hi ++ [hi].
Proof.
  intros H. unfold range.
  replace (Z.to_nat (hi + 1 - lo)) with (Z.to_nat (hi - lo) + 1)%nat by lia.
  rewrite seq_app, map_app. simpl. do 2 f_equal. lia.
Qed.

Lemma in_range (lo hi k : Z) : In k (range lo hi) <-> lo <= k < hi.
Proof.
  unfold range. rewrite in_map_iff. split.
  - intros (i & <- & Hi). apply in_seq in Hi. lia.
  - intros H. exists (Z.to_nat (k - lo)). split; [lia|]. apply in_seq. lia.
Qed.

(** A range cut before one of its members is the range up to it. *)
Lemma range_split (hi k : Z) (post : list Z) :
  forall (pre : list Z) (lo : Z),
    range lo hi = pre ++ k :: post -> pre = range lo k.
Proof.
  induction pre as [|a pre IH]; intros lo H.
  - destruct (Z_lt_le_dec lo hi) as [Hlt|Hge].
    + rewrite range_cons in H by exact Hlt. injection H as <- _.
      now rewrite range_nil by lia.
    + rewrite range_nil in H by exact Hge. discriminate H.
  - destruct (Z_lt_le_dec lo hi) as [Hlt|Hge].
    + rewrite range_cons in H by exact Hlt. simpl in H. injection H as <- H.
      assert (Hk : In k (range (lo + 1) hi)) by (rewrite H; apply in_elt).
      apply in_range in Hk.
      rewrite (range_cons lo k) by lia. f_equal. now apply IH.
    + rewrite range_nil in H by exact Hge. discriminate H.
Qed.

(** ** The writer *)

Lemma log_bind_ret {W A B} (m : M W A) (f : A -> B) :
  log (x <- m ;; ret (f x)) = log m.
Proof.
  destruct m as [w [a| |]]; simpl; [apply app_nil_r | reflexivity | reflexivity].
Qed.

Lemma bind_ret_ok {W A B} (m : M W A) (f : A -> B) (w : list W) (a : A) :
  m = (w, Ok a) -> (x <- m ;; ret (f x)) = (w, Ok (f a)).
Proof. intros ->. simpl. now rewrite app_nil_r. Qed.

(** ** The search fetcher *)

Section SearchFetcher.

Variable server : Z -> response.

(** One iteration of the loop of [fetch_users]. *)
Lemma fetch_users_loop_step (page : Z) (pages : list Z) (users : list pyval) :
  fetch_users_loop server (page :: pages) users =
  if negb (status_code (server page) =? 200) then ([page], Ok users)
  else match search_batch (server page) with
       | Ok items =>
           if negb (has_next (server page)) then ([page], Ok (users ++ items))
           else let (w, r) := fetch_users_loop server pages (users ++ items) in
                (page :: w, r)
       | Raise e => ([page], Raise e)
       | Timeout => ([page], Timeout)
       end.
Proof.
  unfold search_batch. simpl.
  destruct (negb (status_code (server page) =? 200)); [reflexivity|].
  destruct (json (server page)) as [data| |]; simpl; try reflexivity.
  destruct (get_default data "items" (PList [])) as [v| |]; simpl; try reflexivity.
  unfold extend.
  destruct (iterate v) as [items| |]; simpl; try reflexivity.
  destruct (negb (has_next (server page))); [reflexivity|].
  destruct (fetch_users_loop server pages (users ++ items)). reflexivity.
Qed.

(** If a requested page is answered with a non-success status, the loop
    went through the pages before it, took their batches, and stopped
    there. *)
Lemma fetch_users_loop_stops_at (k : Z) :
  status_code (server k) <> 200 ->
  forall (pages : list Z) (users : list pyval),
    In k (log (fetch_users_loop server pages users)) ->
    exists pre post,
      pages = pre ++ k :: post /\
      fetch_users_loop server pages users
      = (pre ++ [k],
         Ok (users ++ flat_map (fun p => search_items (server p)) pre)).
Proof.
  intros Hk. induction pages as [|page pages IH]; intros users Hin.
  - destruct Hin.
  - rewrite fetch_users_loop_step in Hin |- *.
    destruct (status_code (server page) =? 200) eqn:Est; simpl negb in *; cbv iota in *.
    + assert (Hne : page <> k) by (intros ->; apply Hk; lia).
      destruct (search_batch (server page)) as [items| |] eqn:Eb;
        try (destruct Hin as [Hin|[]]; congruence).
      destruct (has_next (server page)); simpl negb in *; cbv iota in *;
        try (destruct Hin as [Hin|[]]; congruence).
      destruct (fetch_users_loop server pages (users ++ items)) as [w r] eqn:E.
      destruct Hin as [Hin|Hin]; [congruence|].
      destruct (IH (users ++ items)) as (pre & post & -> & E').
      { rewrite E. exact Hin. }
      exists (page :: pre), post. split; [reflexivity|].
      rewrite E in E'. injection E' as -> ->.
      cbn [flat_map app].
      change (search_items (server page)) with (or_nil (search_batch (server page))).
      rewrite Eb. cbn [or_nil]. now rewrite app_assoc.
    + destruct Hin as [<-|[]]. exists [], pages. split; [reflexivity|].
      simpl. now rewrite app_nil_r.
Qed.

(** When every page is taken in without an error, the pages requested
    are those that follow pages advertising a next page. *)
Lemma fetch_users_loop_requests (q : Z) :
  (forall p, search_page_ok (server p) = true) ->
  forall (pages : list Z) (users : list pyval),
    In q (log (fetch_users_loop server pages users)) <->
    exists pre post,
      pages = pre ++ q :: post /\
      forall j, In j pre -> has_next (server j) = true.
Proof.
  intros Hok. induction pages as [|page pages IH]; intros users.
  - split; [intros [] | intros (pre & post & H & _); now destruct pre].
  - rewrite fetch_users_loop_step.
    specialize (Hok page) as Hp. unfold search_page_ok in Hp.
    apply andb_prop in Hp as [Hst Hb]. rewrite Hst. simpl negb. cbv iota.
    destruct (search_batch (server page)) as [items| |]; try discriminate Hb.
    destruct (has_next (server page)) eqn:En; simpl negb; cbv iota.
    + specialize (IH (users ++ items)).
      destruct (fetch_users_loop server pages (users ++ items)) as [w r].
      simpl in IH |- *. split.
      * intros [<-|Hin].
        -- exists [], pages. split; [reflexivity | intros j []].
        -- apply IH in Hin as (pre & post & -> & Hpre).
           exists (page :: pre), post. split; [reflexivity|].
           intros j [<-|Hj]; [exact En | now apply Hpre].
      * intros (pre & post & H & Hpre). destruct pre as [|a pre].
        -- injection H as -> _. now left.
        -- injection H as <- H. right. apply IH.
           exists pre, post. split; [exact H|]. intros j Hj. apply Hpre. now right.
    + simpl. split.
      * intros [<-|[]]. exists [], pages. split; [reflexivity | intros j []].
      * intros (pre & post & H & Hpre). destruct pre as [|a pre].
        -- injection H as -> _. now left.
        -- injection H as <- H. specialize (Hpre page (or_introl eq_refl)). congruence.
Qed.

End SearchFetcher.

(** ** The listing fetcher *)

Section ListingFetcher.

Variable server : Z -> response.
Variable max_repos : Z.

(** One iteration of the loop of [fetch_repositories]. *)
Lemma fetch_repositories_loop_step (fuel : nat) (page : Z) (repos : list pyval) :
  fetch_repositories_loop server max_repos (S fuel) page repos =
  match iteration max_repos (server page) repos with
  | Leave o => ([page], o)
  | Continue repos' =>
      let (w, r) := fetch_repositories_loop server max_repos fuel (page + 1) repos' in
      (page :: w, r)
  end.
Proof.
  unfold iteration. simpl.
  destruct (negb (status_code (server page) =? 200)); [reflexivity|].
  destruct (json (server page)) as [data| |]; simpl; try reflexivity.
  destruct (negb (truthy data)); [reflexivity|].
  unfold extend.
  destruct (iterate data) as [items| |]; simpl; try reflexivity.
  destruct ((Z.of_nat (List.length (repos ++ items)) >=? max_repos)
            || negb (has_next (server page))); [reflexivity|].
  destruct (fetch_repositories_loop server max_repos fuel (page + 1) (repos ++ items)).
  reflexivity.
Qed.

Lemma iterate_truthy (data : pyval) (items : list pyval) :
  truthy data = true -> iterate data = Ok items -> items <> [].
Proof.
  destruct data as [ | | | | s | l | d]; simpl; try discriminate.
  - intros Ht [= <-]. destruct s; [discriminate Ht | discriminate].
  - intros Ht [= <-]. destruct l; [discriminate Ht | discriminate].
  - intros Ht [= <-]. destruct d; [discriminate Ht | discriminate].
Qed.

Lemma json_not_timeout (r : response) : json r <> Timeout.
Proof. unfold json. destruct (body r); discriminate. Qed.

Lemma iterate_not_timeout (v : pyval) : iterate v <> Timeout.
Proof. destruct v; discriminate. Qed.

(** A non-success response leaves the loop with the list as it is. *)
Lemma iteration_failure (r : response) (repos : list pyval) :
  status_code r <> 200 -> iteration max_repos r repos = Leave (Ok repos).
Proof.
  intros H. unfold iteration.
  destruct (status_code r =? 200) eqn:E; [|reflexivity].
  apply Z.eqb_eq in E. contradiction.
Qed.

(** An iteration that goes on took a successful page in, made the list
    longer and left it shorter than the cap. *)
Lemma iteration_continue (r : response) (repos repos' : list pyval) :
  iteration max_repos r repos = Continue repos' ->
  status_code r = 200 /\
  repos' = repos ++ listing_items r /\
  (List.length repos < List.length repos')%nat /\
  Z.of_nat (List.length repos') < max_repos.
Proof.
  unfold iteration, listing_items, listing_batch.
  destruct (status_code r =? 200) eqn:Est; simpl negb; cbv iota; [|discriminate].
  destruct (json r) as [data| |]; try discriminate.
  destruct (truthy data) eqn:Et; simpl negb; cbv iota; [|discriminate].
  cbn [bind outcome_seq].
  destruct (iterate data) as [items| |] eqn:Ei; try discriminate.
  cbv zeta.
  destruct (Z.of_nat (List.length (repos ++ items)) >=? max_repos) eqn:Ecap;
    [discriminate|].
  destruct (has_next r); [|discriminate]. simpl. intros [= <-].
  apply Z.eqb_eq in Est. pose proof (iterate_truthy _ _ Et Ei) as Hne.
  rewrite Z.geb_leb in Ecap. apply Z.leb_gt in Ecap.
  rewrite length_app in *. destruct items; [congruence|]. simpl in *.
  repeat split; lia.
Qed.

(** Leaving the loop never is a time-out. *)
Lemma iteration_leave (r : response) (repos : list pyval) :
  iteration max_repos r repos <> Leave Timeout.
Proof.
  unfold iteration.
  destruct (negb (status_code r =? 200)); [discriminate|].
  pose proof (json_not_timeout r).
  destruct (json r) as [data| |]; try discriminate; try congruence.
  destruct (negb (truthy data)); [discriminate|].
  pose proof (iterate_not_timeout data).
  destruct (iterate data); try discriminate; try congruence.
  cbv zeta. destruct (_ || _); discriminate.
Qed.

(** If a requested page is answered with a non-success status, the loop
    went through the pages before it, took their batches, stayed below
    the cap, and stopped there. *)
Lemma fetch_repositories_loop_stops_at (k : Z) :
  status_code (server k) <> 200 ->
  forall (fuel : nat) (page : Z) (repos : list pyval),
    In k (log (fetch_repositories_loop server max_repos fuel page repos)) ->
    let acc := repos ++ flat_map (fun p => listing_items (server p)) (range page k) in
    fetch_repositories_loop server max_repos fuel page repos
    = (range page (k + 1), Ok acc) /\
    page <= k /\
    (page < k -> Z.of_nat (List.length acc) < max_repos).
Proof.
  intros Hk. induction fuel as [|fuel IH]; intros page repos Hin; [destruct Hin|].
  rewrite fetch_repositories_loop_step in Hin |- *.
  destruct (Z.eq_dec page k) as [->|Hne].
  - rewrite iteration_failure in * by exact Hk.
    rewrite range_nil by lia. rewrite range_cons, range_nil by lia.
    simpl. rewrite app_nil_r. repeat split; lia.
  - destruct (iteration max_repos (server page) repos) as [o|repos'] eqn:E.
    + destruct Hin as [Hin|[]]. congruence.
    + apply iteration_continue in E as (_ & -> & _ & Hcap).
      specialize (IH (page + 1) (repos ++ listing_items (server page))).
      destruct (fetch_repositories_loop server max_repos fuel (page + 1)
                  (repos ++ listing_items (server page))) as [w r].
      destruct Hin as [Hin|Hin]; [congruence|].
      destruct (IH Hin) as (IH1 & IH2 & IH3). clear IH.
      injection IH1 as -> ->.
      rewrite (range_cons page (k + 1)), (range_cons page k) by lia.
      cbn [flat_map]. rewrite app_assoc.
      repeat split; [lia|]. intros _.
      destruct (Z.eq_dec (page + 1) k) as [<-|Hne'].
      * rewrite range_nil by lia. simpl. now rewrite app_nil_r.
      * apply IH3. lia.
Qed.

(** With more iterations allowed than there is room below the cap, the
    loop is left before they are used up, and after at most one request
    more than there was room. *)
Lemma fetch_repositories_loop_total :
  forall (fuel : nat) (page : Z) (repos : list pyval),
    (room max_repos repos < fuel)%nat ->
    result (fetch_repositories_loop server max_repos fuel page repos) <> Timeout /\
    (List.length (log (fetch_repositories_loop server max_repos fuel page repos))
     <= room max_repos repos + 1)%nat.
Proof.
  induction fuel as [|fuel IH]; intros page repos Hroom; [lia|].
  rewrite fetch_repositories_loop_step.
  destruct (iteration max_repos (server page) repos) as [o|repos'] eqn:E.
  - simpl. split; [|lia]. intros ->. now apply iteration_leave in E.
  - apply iteration_continue in E as (_ & _ & Hlen & Hcap).
    assert (Hlt : (room max_repos repos' < room max_repos repos)%nat) by (unfold room; lia).
    destruct (IH (page + 1) repos') as [IH1 IH2]; [lia|].
    destruct (fetch_repositories_loop server max_repos fuel (page + 1) repos') as [w r].
    simpl in *. split; [exact IH1 | lia].
Qed.

(** Allowing more iterations than needed changes nothing. *)
Lemma fetch_repositories_loop_fuel :
  forall (fuel fuel' : nat) (page : Z) (repos : list pyval),
    (room max_repos repos < fuel)%nat -> (room max_repos repos < fuel')%nat ->
    fetch_repositories_loop server max_repos fuel page repos
    = fetch_repositories_loop server max_repos fuel' page repos.
Proof.
  induction fuel as [|fuel IH]; intros fuel' page repos H H'; [lia|].
  destruct fuel' as [|fuel']; [lia|].
  rewrite !fetch_repositories_loop_step.
  destruct (iteration max_repos (server page) repos) as [o|repos'] eqn:E;
    [reflexivity|].
  apply iteration_continue in E as (_ & _ & Hlen & Hcap).
  assert (Hlt : (room max_repos repos' < room max_repos repos)%nat) by (unfold room; lia).
  rewrite (IH fuel' (page + 1) repos') by lia. reflexivity.
Qed.

End ListingFetcher.

(** ** The paginated fetchers: failure, cap, requests *)

Lemma slice_to_below {A} (l : list A) (n : Z) :
  l = [] \/ Z.of_nat (List.length l) <= n -> slice_to l n = l.
Proof.
  unfold slice_to. intros [->|H].
  - now rewrite !firstn_nil; destruct (n <? 0).
  - destruct (n <? 0) eqn:E; [apply Z.ltb_lt in E; lia|].
    apply firstn_all2. lia.
Qed.

Lemma slice_to_cap {A} (l : list A) (n : Z) :
  0 <= n -> slice_to l n = firstn (Z.to_nat n) l.
Proof.
  intros H. unfold slice_to. destruct (n <? 0) eqn:E; [apply Z.ltb_lt in E; lia|].
  reflexivity.
Qed.

(** C1: when a requested page [k] of a paginated fetch is answered with a
    non-success status, the fetch requests nothing after it, raises
    nothing, and returns exactly the items of pages 1..k-1, for the user
    search as for the repository listing. *)
Theorem failing_page_keeps_earlier_items
    (server : Z -> response) (k : Z)
    (Hfail : status_code (server k) <> 200) :
  (forall max_pages,
      In k (log (fetch_users server max_pages)) ->
      fetch_users server max_pages
      = (range 1 (k + 1),
         Ok (flat_map (fun p => search_items (server p)) (range 1 k)))) /\
  (forall max_repos,
      In k (log (fetch_repositories server max_repos)) ->
      fetch_repositories server max_repos
      = (range 1 (k + 1),
         Ok (flat_map (fun p => listing_items (server p)) (range 1 k)))).
Proof.
  split.
  - intros max_pages Hin. unfold fetch_users in *.
    destruct (fetch_users_loop_stops_at server k Hfail _ _ Hin)
      as (pre & post & Hsplit & ->).
    assert (Hk : In k (range 1 (max_pages + 1))) by (rewrite Hsplit; apply in_elt).
    apply in_range in Hk. apply range_split in Hsplit as ->.
    rewrite range_snoc by lia. reflexivity.
  - intros max_repos Hin. unfold fetch_repositories in *.
    rewrite log_bind_ret in Hin. unfold accumulated in *.
    destruct (fetch_repositories_loop_stops_at server max_repos k Hfail _ _ _ Hin)
      as (E & Hk & Hcap).
    simpl app in E, Hcap.
    rewrite (bind_ret_ok _ _ _ _ E). do 2 f_equal.
    apply slice_to_below.
    destruct (Z.eq_dec 1 k) as [<-|Hne].
    + left. now rewrite range_nil by lia.
    + right. assert (H : 1 < k) by lia. specialize (Hcap H). lia.
Qed.

Lemma failing_page_keeps_earlier_items_witness :
  fetch_users (failing_at 3 (search_pages 5)) MAX_USER_PAGES
  = ([1; 2; 3], Ok [PInt 1; PInt 2]) /\
  fetch_repositories (failing_at 3 (listing_pages 5)) MAX_REPOS_PER_USER
  = ([1; 2; 3], Ok [PInt 1; PInt (-1); PInt 2; PInt (-2)]).
Proof.
  assert (Hfail : forall s, status_code (failing_at 3 s 3) <> 200)
    by (intros s; vm_compute; discriminate).
  split.
  - assert (Hin : In 3 (log (fetch_users (failing_at 3 (search_pages 5)) MAX_USER_PAGES)))
      by (vm_compute; tauto).
    exact (proj1 (failing_page_keeps_earlier_items
                    (failing_at 3 (search_pages 5)) 3 (Hfail _)) MAX_USER_PAGES Hin).
  - assert (Hin : In 3 (log (fetch_repositories (failing_at 3 (listing_pages 5))
                               MAX_REPOS_PER_USER)))
      by (vm_compute; tauto).
    exact (proj2 (failing_page_keeps_earlier_items
                    (failing_at 3 (listing_pages 5)) 3 (Hfail _)) MAX_REPOS_PER_USER Hin).
Defined.

(** C6: for a cap that is a count (not negative), [fetch_repositories]
    returns at most [max_repos] items, and when the list accumulated by the
    loop has reached or overshot the cap, what is returned is its first
    [max_repos] items, exactly [max_repos] of them. *)
Theorem fetch_repositories_cap
    (server : Z -> response) (max_repos : Z) (Hcap : 0 <= max_repos) :
  (forall w repos,
      fetch_repositories server max_repos = (w, Ok repos) ->
      Z.of_nat (List.length repos) <= max_repos) /\
  (forall w acc,
      accumulated server max_repos = (w, Ok acc) ->
      max_repos <= Z.of_nat (List.length acc) ->
      fetch_repositories server max_repos = (w, Ok (firstn (Z.to_nat max_repos) acc)) /\
      Z.of_nat (List.length (firstn (Z.to_nat max_repos) acc)) = max_repos).
Proof.
  split.
  - intros w repos. unfold fetch_repositories.
    destruct (accumulated server max_repos) as [w' [acc| |]] eqn:E;
      simpl; try discriminate.
    intros [= _ <-]. rewrite slice_to_cap by exact Hcap.
    pose proof (firstn_le_length (Z.to_nat max_repos) acc).
    rewrite length_firstn. lia.
  - intros w acc E Hover. unfold fetch_repositories.
    rewrite (bind_ret_ok _ _ _ _ E), slice_to_cap by exact Hcap.
    split; [reflexivity|]. rewrite length_firstn. lia.
Qed.

Lemma fetch_repositories_cap_witness :
  fetch_repositories (listing_pages 5) 3 = ([1; 2], Ok [PInt 1; PInt (-1); PInt 2]) /\
  Z.of_nat (List.length [PInt 1; PInt (-1); PInt 2]) <= 3.
Proof.
  assert (Hcap : 0 <= 3) by lia.
  assert (E : accumulated (listing_pages 5) 3
              = ([1; 2], Ok [PInt 1; PInt (-1); PInt 2; PInt (-2)]))
    by reflexivity.
  assert (Hover : 3 <= Z.of_nat (List.length [PInt 1; PInt (-1); PInt 2; PInt (-2)]))
    by (simpl; lia).
  pose proof (proj2 (fetch_repositories_cap (listing_pages 5) 3 Hcap) _ _ E Hover)
    as [Hret _].
  split; [exact Hret|].
  exact (proj1 (fetch_repositories_cap (listing_pages 5) 3 Hcap) _ _ Hret).
Defined.

(** A negative [max_repos] is not a count: the loop stops after its first
    page and the slice drops items from the end of the list. *)
Remark negative_cap_slices_from_the_end :
  fetch_repositories (listing_pages 5) (-1) = ([1], Ok [PInt 1]).
Proof. reflexivity. Qed.

(** C10: [fetch_repositories] terminates whatever the server answers:
    every iteration of its loop either leaves the loop or makes the list
    longer while keeping it shorter than the cap, so that any number of
    iterations above the cap is enough, the outcome is the same for all of
    them and is never a time-out, and at most cap + 1 pages are
    requested (one page when the cap is not positive). *)
Theorem fetch_repositories_terminates
    (server : Z -> response) (max_repos : Z) (fuel : nat)
    (Hfuel : (Z.to_nat max_repos < fuel)%nat) :
  fetch_repositories_loop server max_repos fuel 1 [] = accumulated server max_repos /\
  result (fetch_repositories server max_repos) <> Timeout /\
  (List.length (log (fetch_repositories server max_repos)) <= Z.to_nat max_repos + 1)%nat /\
  (0 <= max_repos ->
   Z.of_nat (List.length (log (fetch_repositories server max_repos))) <= max_repos + 1) /\
  (forall page repos repos',
      iteration max_repos (server page) repos = Continue repos' ->
      (List.length repos < List.length repos')%nat /\
      Z.of_nat (List.length repos') < max_repos).
Proof.
  assert (Hroom : room max_repos [] = Z.to_nat max_repos)
    by (unfold room; simpl; f_equal; lia).
  assert (Hlen : (List.length (log (fetch_repositories server max_repos))
                  <= Z.to_nat max_repos + 1)%nat).
  { destruct (fetch_repositories_loop_total server max_repos (enough max_repos) 1 [])
      as [_ H]; [rewrite Hroom; unfold enough; lia|].
    unfold fetch_repositories. rewrite log_bind_ret.
    unfold accumulated. rewrite Hroom in H. exact H. }
  split; [|split; [|split; [exact Hlen | split; [intros Hcap; lia|]]]].
  - unfold accumulated, enough.
    apply fetch_repositories_loop_fuel; rewrite Hroom; lia.
  - destruct (fetch_repositories_loop_total server max_repos (enough max_repos) 1 [])
      as [H _]; [rewrite Hroom; unfold enough; lia|].
    unfold fetch_repositories. fold (accumulated server max_repos) in H.
    destruct (accumulated server max_repos) as [w [acc| |]]; simpl in *;
      [discriminate | discriminate | congruence].
  - intros page repos repos' E.
    apply iteration_continue in E as (_ & _ & H1 & H2). now split.
Qed.

Lemma fetch_repositories_terminates_witness :
  fetch_repositories_loop (listing_pages 5) 3 1000 1 []
  = ([1; 2], Ok [PInt 1; PInt (-1); PInt 2; PInt (-2)]) /\
  (List.length (log (fetch_repositories (listing_pages 5) 3)) <= 4)%nat.
Proof.
  assert (Hfuel : (Z.to_nat 3 < 1000)%nat) by (simpl; lia).
  pose proof (fetch_repositories_terminates (listing_pages 5) 3 1000 Hfuel)
    as (Hloop & _ & Hlen & _ & _).
  split; [exact Hloop | exact Hlen].
Defined.

(** C9, as the specification states it, fails: after an empty page that
    advertises a next page, the search fetcher requests the next page. *)
Lemma empty_page_does_not_stop_search :
  (forall p, search_page_ok (endless_empty_pages p) = true) /\
  search_items (endless_empty_pages 1) = [] /\
  In 2 (log (fetch_users endless_empty_pages MAX_USER_PAGES)) /\
  fetch_users endless_empty_pages MAX_USER_PAGES = (range 1 11, Ok []).
Proof.
  split; [intros p; reflexivity|].
  split; [reflexivity|].
  split; [vm_compute; tauto | reflexivity].
Qed.

(** C9, amended: the search fetcher does not look at whether a page is
    empty; over successful responses, page k+1 is requested exactly when
    it is within the page cap and each of the pages 1..k advertises a next
    page. *)
Theorem fetch_users_next_request
    (server : Z -> response) (max_pages k : Z)
    (Hok : forall p, search_page_ok (server p) = true)
    (Hk : 1 <= k) :
  In (k + 1) (log (fetch_users server max_pages)) <->
  k + 1 <= max_pages /\ (forall j, 1 <= j <= k -> has_next (server j) = true).
Proof.
  unfold fetch_users. rewrite (fetch_users_loop_requests server (k + 1) Hok). split.
  - intros (pre & post & Hsplit & Hpre).
    assert (Hin : In (k + 1) (range 1 (max_pages + 1)))
      by (rewrite Hsplit; apply in_elt).
    apply in_range in Hin. apply range_split in Hsplit as ->.
    split; [lia|]. intros j Hj. apply Hpre. apply in_range. lia.
  - intros [Hmax Hnext].
    assert (Hin : In (k + 1) (range 1 (max_pages + 1))) by (apply in_range; lia).
    apply in_split in Hin as (pre & post & Hsplit).
    exists pre, post. split; [exact Hsplit|].
    apply range_split in Hsplit as ->.
    intros j Hj. apply in_range in Hj. apply Hnext. lia.
Qed.

Lemma fetch_users_next_request_witness :
  In 3 (log (fetch_users (search_pages 3) MAX_USER_PAGES)) /\
  ~ In 4 (log (fetch_users (search_pages 3) MAX_USER_PAGES)).
Proof.
  assert (Hok : forall p, search_page_ok (search_pages 3 p) = true)
    by (intros p; reflexivity).
  split.
  - apply (proj2 (fetch_users_next_request (search_pages 3) MAX_USER_PAGES 2 Hok
                    ltac:(lia))).
    split; [unfold MAX_USER_PAGES; lia|].
    intros j Hj. simpl. apply Z.ltb_lt. lia.
  - intros Hin.
    apply (proj1 (fetch_users_next_request (search_pages 3) MAX_USER_PAGES 3 Hok
                    ltac:(lia))) in Hin as [_ Hnext].
    specialize (Hnext 3 ltac:(lia)). discriminate Hnext.
Defined.

(** ** The loop of [main] *)

Lemma repo_data_login (username repo : pyval) (row : Repo.t) :
  repo_data username repo = Ok row -> Repo.login row = username.
Proof.
  unfold repo_data. cbn [bind ret outcome_seq].
  repeat match goal with
         | |- match ?m with _ => _ end = _ -> _ => destruct m; try discriminate
         end.
  now intros [= <-].
Qed.

Lemma repos_loop_rows (username : pyval) :
  forall (repos : list pyval) (all_repositories table : list Repo.t),
    repos_loop username repos all_repositories = Ok table ->
    exists rows,
      table = all_repositories ++ rows /\
      forall r, In r rows -> Repo.login r = username.
Proof.
  induction repos as [|repo repos IH]; intros acc table H.
  - cbn in H. injection H as <-. exists []. split; [now rewrite app_nil_r | intros r []].
  - cbn [repos_loop] in H.
    destruct (repo_data username repo) as [row| |] eqn:E;
      cbn [bind outcome_seq] in H; try discriminate.
    apply IH in H as (rows & -> & Hrows).
    exists (row :: rows). split; [now rewrite <- app_assoc|].
    intros r [<-|Hr]; [now apply repo_data_login in E | now apply Hrows].
Qed.

Lemma enumerate_cons {A} (start : nat) (a : A) (l : list A) :
  enumerate start (a :: l) = (start, a) :: enumerate (S start) l.
Proof. reflexivity. Qed.

(** The tables the loop returns: one user record for each user whose
    detail fetch succeeded, in order, and for each of these users a run of
    repository records carrying the login of that user. *)
Lemma users_loop_tables (net : network) :
  forall (users : list pyval) (idx : nat)
         (processed_users : list User.t) (all_repositories : list Repo.t)
         (users_table : list User.t) (repos_table : list Repo.t),
    users_loop net idx users processed_users all_repositories
    = Ok (users_table, repos_table) ->
    exists (rows : list User.t) (runs : list (list Repo.t)),
      users_table = processed_users ++ rows /\
      repos_table = all_repositories ++ List.concat runs /\
      Forall2 (made_from net) (filter (detail_ok net) (enumerate idx users)) rows /\
      Forall2 rows_of (filter (detail_ok net) (enumerate idx users)) runs.
Proof.
  induction users as [|user users IH]; intros idx pu ar ut rt H.
  - cbn in H. injection H as <- <-. exists [], []. simpl. rewrite !app_nil_r.
    repeat split; constructor.
  - rewrite enumerate_cons. cbn [filter].
    cbn [users_loop] in H.
    destruct (get user "login") as [username| |] eqn:Eu;
      cbn [bind outcome_seq] in H; try discriminate.
    destruct (fetch_user_details (details_of net idx) username) as [details| |] eqn:Ed;
      cbn [bind outcome_seq] in H; try discriminate.
    assert (Hf : fetched_details net (idx, user) = Ok details).
    { unfold fetched_details. cbn [fst snd]. rewrite Eu. exact Ed. }
    assert (Hok : detail_ok net (idx, user) = truthy details).
    { unfold detail_ok. now rewrite Hf. }
    rewrite Hok.
    destruct (truthy details) eqn:Et; cbn [negb] in H; cbv iota in H |- *.
    + destruct (user_data details) as [row| |] eqn:Er;
        cbn [bind outcome_seq] in H; try discriminate.
      destruct (result (fetch_repositories (repos_of net idx username) MAX_REPOS_PER_USER))
        as [repos| |]; cbn [bind outcome_seq] in H; try discriminate.
      destruct (repos_loop username repos ar) as [ar'| |] eqn:El;
        cbn [bind outcome_seq] in H; try discriminate.
      apply repos_loop_rows in El as (run & -> & Hrun).
      apply IH in H as (rows & runs & -> & -> & Hrows & Hruns).
      exists (row :: rows), (run :: runs).
      cbn [List.concat]. rewrite <- !app_assoc. repeat split.
      * constructor; [|exact Hrows]. now exists details.
      * constructor; [|exact Hruns].
        intros r Hr. cbn [snd]. rewrite Eu. f_equal. symmetry. now apply Hrun.
    + now apply IH in H.
Qed.

Lemma Forall2_in_r {A B} (R : A -> B -> Prop) (l : list A) (l' : list B) :
  Forall2 R l l' -> forall y, In y l' -> exists x, In x l /\ R x y.
Proof.
  induction 1 as [|x y l l' HR _ IH]; intros z Hz; [destruct Hz|].
  destruct Hz as [<-|Hz].
  - exists x. split; [now left | exact HR].
  - destruct (IH z Hz) as (x' & Hx' & HR'). exists x'. split; [now right | exact HR'].
Qed.

Lemma Forall2_in_l {A B} (R : A -> B -> Prop) (l : list A) (l' : list B) :
  Forall2 R l l' -> forall x, In x l -> exists y, In y l' /\ R x y.
Proof.
  induction 1 as [|x y l l' HR _ IH]; intros z Hz; [destruct Hz|].
  destruct Hz as [<-|Hz].
  - exists y. split; [now left | exact HR].
  - destruct (IH z Hz) as (y' & Hy' & HR'). exists y'. split; [now right | exact HR'].
Qed.

Lemma main_returns (env : environ) (net : network)
    (out : list string) (tables : list User.t * list Repo.t) :
  main env net = (out, Ok tables) ->
  exists users,
    result (fetch_users (search net) MAX_USER_PAGES) = Ok users /\
    users_loop net 1 users [] [] = Ok tables.
Proof.
  unfold main, quiet, lift, result.
  destruct (get_github_token env) as [w [token| |]];
    cbn [bind M_seq]; try discriminate.
  destruct (fetch_users (search net) MAX_USER_PAGES) as [w' [users| |]];
    cbn [snd bind M_seq]; try discriminate.
  intros [= _ H]. now exists users.
Qed.

(** *** [main] is never out of iterations *)

Lemma bind_finished {A B} (m : outcome A) (k : A -> outcome B) :
  m <> Timeout -> (forall a, k a <> Timeout) -> (x <- m ;; k x) <> Timeout.
Proof. intros Hm Hk. destruct m; cbn [bind outcome_seq]; [apply Hk | discriminate | congruence]. Qed.

Lemma get_default_finished (v : pyval) (k : string) (d : pyval) :
  get_default v k d <> Timeout.
Proof. destruct v; discriminate. Qed.

Lemma subscript_finished (v : pyval) (k : string) : subscript v k <> Timeout.
Proof. destruct v; try discriminate. simpl. destruct (lookup k d); discriminate. Qed.

Lemma clean_company_finished (v : pyval) : clean_company v <> Timeout.
Proof.
  unfold clean_company. destruct (negb (truthy v)); [discriminate|].
  destruct v; discriminate.
Qed.

Ltac finished :=
  repeat first
    [ apply bind_finished; [|intros ?]
    | apply get_default_finished
    | apply subscript_finished
    | apply clean_company_finished
    | apply json_not_timeout
    | discriminate ].

Lemma user_data_finished (details : pyval) : user_data details <> Timeout.
Proof. unfold user_data, get. finished. Qed.

Lemma repo_data_finished (username repo : pyval) : repo_data username repo <> Timeout.
Proof.
  unfold repo_data, license_name, get. finished.
  destruct (truthy _); finished.
Qed.

Lemma repos_loop_finished (username : pyval) :
  forall repos table, repos_loop username repos table <> Timeout.
Proof.
  induction repos as [|repo repos IH]; intros table; cbn [repos_loop]; [discriminate|].
  apply bind_finished; [apply repo_data_finished | intros row; apply IH].
Qed.

Lemma fetch_repositories_finished (server : Z -> response) (max_repos : Z) :
  result (fetch_repositories server max_repos) <> Timeout.
Proof.
  destruct (fetch_repositories_loop_total server max_repos (enough max_repos) 1 [])
    as [H _]; [unfold room, enough; simpl; lia|].
  unfold fetch_repositories. fold (accumulated server max_repos) in H.
  destruct (accumulated server max_repos) as [w [acc| |]]; simpl in *;
    [discriminate | discriminate | congruence].
Qed.

Lemma fetch_users_loop_finished (server : Z -> response) :
  forall pages users, result (fetch_users_loop server pages users) <> Timeout.
Proof.
  induction pages as [|page pages IH]; intros users; [discriminate|].
  rewrite fetch_users_loop_step.
  destruct (negb (status_code (server page) =? 200)); [discriminate|].
  unfold search_batch.
  pose proof (json_not_timeout (server page)) as Hj.
  destruct (json (server page)) as [data| |]; cbn [bind outcome_seq];
    [|discriminate|congruence].
  pose proof (get_default_finished data "items" (PList [])) as Hg.
  destruct (get_default data "items" (PList [])) as [v| |]; cbn [bind outcome_seq];
    [|discriminate|congruence].
  pose proof (iterate_not_timeout v) as Hi.
  destruct (iterate v) as [items| |]; [|discriminate|congruence].
  destruct (negb (has_next (server page))); [discriminate|].
  specialize (IH (users ++ items)).
  destruct (fetch_users_loop server pages (users ++ items)). exact IH.
Qed.

Lemma users_loop_finished (net : network) :
  forall users idx processed_users all_repositories,
    users_loop net idx users processed_users all_repositories <> Timeout.
Proof.
  induction users as [|user users IH]; intros idx pu ar; cbn [users_loop];
    [discriminate|].
  apply bind_finished; [apply get_default_finished | intros username].
  apply bind_finished.
  { unfold fetch_user_details. destruct (negb _); [discriminate | apply json_not_timeout]. }
  intros details. destruct (negb (truthy details)); [apply IH|].
  apply bind_finished; [apply user_data_finished | intros row].
  apply bind_finished; [apply fetch_repositories_finished | intros repos].
  apply bind_finished; [apply repos_loop_finished | intros table]. apply IH.
Qed.

(** Whatever the environment and the server, [main] ends: with the
    tables, with an exception, or with the exit of the token loader. *)
Lemma main_finishes (env : environ) (net : network) :
  result (main env net) <> Timeout.
Proof.
  unfold main, quiet, lift, result, get_github_token.
  destruct (negb (truthy (os_getenv env "GITHUB_TOKEN"))); [discriminate|].
  destruct (method_strip (os_getenv env "GITHUB_TOKEN")) as [token| |] eqn:E;
    cbn [bind M_seq snd]; [|discriminate|].
  - pose proof (fetch_users_loop_finished (search net)
                  (range 1 (MAX_USER_PAGES + 1)) []) as Hu.
    unfold fetch_users.
    destruct (fetch_users_loop (search net) (range 1 (MAX_USER_PAGES + 1)) [])
      as [w [users| |]]; cbn [snd result] in *; [|discriminate|congruence].
    apply users_loop_finished.
  - destruct (os_getenv env "GITHUB_TOKEN"); discriminate E.
Qed.

(** C5: when [main] reaches its output, the user records are, in order,
    those made from the details of the users whose detail fetch succeeded;
    every repository record carries the login of such a user, who has a
    user record; and for a user U whose detail fetch failed there is no
    repository record with login U and no user record made for U (nor,
    when the details served carry the login they were asked for, a user
    record with login U). *)
Theorem main_tables_consistent
    (env : environ) (net : network) (out : list string)
    (users_table : list User.t) (repos_table : list Repo.t)
    (Hmain : main env net = (out, Ok (users_table, repos_table))) :
  exists users,
    result (fetch_users (search net) MAX_USER_PAGES) = Ok users /\
    let kept := filter (detail_ok net) (enumerate 1 users) in
    Forall2 (made_from net) kept users_table /\
    (forall r, In r repos_table ->
       exists iu row,
         In iu kept /\ get (snd iu) "login" = Ok (Repo.login r) /\
         made_from net iu row /\ In row users_table) /\
    (forall U,
       (forall iu, In iu (enumerate 1 users) ->
                   get (snd iu) "login" = Ok U -> detail_ok net iu = false) ->
       (forall r, In r repos_table -> Repo.login r <> U) /\
       (forall iu, In iu kept -> get (snd iu) "login" <> Ok U) /\
       ((forall iu row, In iu kept -> made_from net iu row ->
                        get (snd iu) "login" = Ok (User.login row)) ->
        forall row, In row users_table -> User.login row <> U)).
Proof.
  apply main_returns in Hmain as (users & Hu & Hloop).
  apply users_loop_tables in Hloop as (rows & runs & Hut & Hrt & Hrows & Hruns).
  simpl in Hut, Hrt. subst users_table repos_table.
  exists users. split; [exact Hu|]. cbv zeta.
  set (kept := filter (detail_ok net) (enumerate 1 users)) in *.
  assert (Hrepo : forall r, In r (List.concat runs) ->
            exists iu row, In iu kept /\ get (snd iu) "login" = Ok (Repo.login r) /\
                           made_from net iu row /\ In row rows).
  { intros r Hr. apply in_concat in Hr as (run & Hrun & Hr).
    destruct (Forall2_in_r _ _ _ Hruns run Hrun) as (iu & Hiu & Hof).
    destruct (Forall2_in_l _ _ _ Hrows iu Hiu) as (row & Hrow & Hmade).
    exists iu, row. repeat split; [exact Hiu | now apply Hof | exact Hmade | exact Hrow]. }
  assert (Hkept : forall U,
            (forall iu, In iu (enumerate 1 users) ->
                        get (snd iu) "login" = Ok U -> detail_ok net iu = false) ->
            forall iu, In iu kept -> get (snd iu) "login" <> Ok U).
  { intros U Hfail iu Hiu Hlogin. apply filter_In in Hiu as [Hin Hok].
    rewrite (Hfail iu Hin Hlogin) in Hok. discriminate Hok. }
  split; [exact Hrows|]. split; [exact Hrepo|].
  intros U Hfail. split; [|split].
  - intros r Hr HU. subst U. destruct (Hrepo r Hr) as (iu & _ & Hiu & Hlogin & _).
    exact (Hkept _ Hfail iu Hiu Hlogin).
  - exact (Hkept U Hfail).
  - intros Hecho row Hrow HU. subst U.
    destruct (Forall2_in_r _ _ _ Hrows row Hrow) as (iu & Hiu & Hmade).
    exact (Hkept _ Hfail iu Hiu (Hecho iu row Hiu Hmade)).
Qed.


(** * Further properties of the script *)

(** ** Company normalisation, further *)

(** X1: whatever it is given, [clean_company] either returns a text or raises
    [AttributeError]: the empty text for every value that is false, the
    normalised text for a string, and the error for every other value
    that is true (a number, [True], a non-empty list or mapping). *)
Theorem clean_company_outcomes (v : pyval) :
  (truthy v = false -> clean_company v = Ok "") /\
  (is_str v = true -> exists t, clean_company v = Ok t) /\
  (truthy v = true -> is_str v = false -> clean_company v = Raise AttributeError).
Proof.
  split; [|split].
  - unfold clean_company. now intros ->.
  - destruct v; try discriminate. intros _. rewrite clean_company_str.
    eexists. reflexivity.
  - unfold clean_company. intros -> Hs. destruct v; try discriminate Hs; reflexivity.
Qed.

(** X2: a company that [clean_company] returns is upper-cased ([upper]
    leaves it alone) and has no whitespace at its end: it is empty or its
    last code point is not whitespace. *)
Theorem clean_company_normal_form
    (Hok : upper_table_ok upper_of) (v : pyval) (t : text)
    (Hclean : clean_company v = Ok t) :
  upper t = t /\ rstrip t = t /\
  (forall a c, t = a ++ [c] -> is_space c = false).
Proof.
  assert (H : upper t = t /\ rstrip t = t).
  { destruct (truthy v) eqn:Ht.
    - destruct v; try (unfold clean_company in Hclean; rewrite Ht in Hclean;
                       discriminate Hclean).
      rewrite clean_company_str in Hclean.
      destruct (Nat.eqb (List.length s) 0); injection Hclean as <-.
      + now split.
      + split; [apply (upper_cleaned Hok) | apply (rstrip_cleaned Hok)].
    - unfold clean_company in Hclean. rewrite Ht in Hclean.
      injection Hclean as <-. now split. }
  destruct H as [Hu Hr]. repeat split; try assumption.
  intros a c Ht. apply (rstrip_last_kept t a c). now rewrite Hr.
Qed.

(** X3: [clean_company] does not depend on the case of the letters of its
    input nor on the whitespace around it. *)
Theorem clean_company_case_and_padding
    (Hok : upper_table_ok upper_of) (s : text) :
  clean_company (PStr (upper s)) = clean_company (PStr s) /\
  clean_company (PStr (strip s)) = clean_company (PStr s).
Proof.
  rewrite !clean_company_str. split.
  - rewrite (cleaned_upper Hok).
    destruct s as [|c s]; [reflexivity|].
    destruct (upper (c :: s)) eqn:E; [|reflexivity].
    apply (proj1 (upper_nil_iff Hok _)) in E. discriminate E.
  - destruct (Nat.eqb (List.length (strip s)) 0) eqn:E.
    + apply Nat.eqb_eq in E.
      assert (Hs : strip s = []) by (destruct (strip s); [reflexivity | discriminate E]).
      destruct (Nat.eqb (List.length s) 0); [reflexivity|].
      now rewrite cleaned_empty_strip.
    + destruct (Nat.eqb (List.length s) 0) eqn:E'.
      * apply Nat.eqb_eq in E'.
        destruct s; [cbn in E; discriminate E | discriminate E'].
      * unfold cleaned. cbv zeta. now rewrite strip_idem.
Qed.

(** ** The token loader and the boolean columns, further *)

(** X4: a token that the loader returns is the value of the variable, which
    was not empty, with the whitespace around it removed: the value is the
    token between two runs of whitespace, the token begins and ends with
    no whitespace, and nothing was printed. *)
Theorem returned_token_is_trimmed
    (env : environ) (w : list string) (t : text)
    (Hret : get_github_token env = (w, Ok t)) :
  w = [] /\ strip t = t /\
  exists raw pre post,
    env "GITHUB_TOKEN" = Some raw /\ raw <> "" /\
    raw = pre ++ t ++ post /\
    forallb is_space pre = true /\ forallb is_space post = true /\
    head_kept t = true /\ (forall a c, t = a ++ [c] -> is_space c = false).
Proof.
  unfold get_github_token, os_getenv in Hret.
  destruct (env "GITHUB_TOKEN") as [raw|]; [|discriminate Hret].
  destruct raw as [|c raw]; [discriminate Hret|].
  injection Hret as <- <-. split; [reflexivity|]. split; [apply strip_idem|].
  destruct (strip_inside (c :: raw)) as (pre & post & Hraw & Hpre & Hpost).
  exists (c :: raw), pre, post.
  repeat split; try assumption; try discriminate.
  - apply head_kept_strip.
  - intros a d Ht. apply (rstrip_last_kept (lstrip (c :: raw)) a d). exact Ht.
Qed.

Lemma returned_token_is_trimmed_witness :
  get_github_token (fun _ => Some [160; 116; 111; 107; 32; 12288]%N) = ([], Ok "tok") /\
  strip "tok" = "tok" /\ head_kept "tok" = true.
Proof.
  split; [reflexivity|].
  pose proof (returned_token_is_trimmed
                (fun _ => Some [160; 116; 111; 107; 32; 12288]%N) [] "tok" eq_refl)
    as (_ & Hs & raw & pre & post & _ & _ & _ & _ & _ & Hh & _).
  split; [exact Hs | exact Hh].
Defined.

(** X5: the loader raises nothing but the exit with status 1, and only after
    printing its two lines. *)
Theorem get_github_token_only_exits
    (env : environ) (w : list string) (e : exn)
    (Hraise : get_github_token env = (w, Raise e)) :
  e = SystemExit 1 /\ w = [not_found_msg; please_set_msg].
Proof.
  unfold get_github_token, os_getenv in Hraise.
  destruct (env "GITHUB_TOKEN") as [raw|].
  - destruct raw; [|discriminate Hraise]. injection Hraise as <- <-. now split.
  - injection Hraise as <- <-. now split.
Qed.

Lemma get_github_token_only_exits_witness :
  exists w e, get_github_token (fun _ => Some "") = (w, Raise e) /\
              e = SystemExit 1 /\ w = [not_found_msg; please_set_msg].
Proof.
  eexists _, _. split; [reflexivity|].
  exact (get_github_token_only_exits (fun _ => Some "") _ _ eq_refl).
Defined.

(** X6: the text of a boolean column is one of "true", "false" and the empty
    text, and tells the value apart: "true" comes from the boolean true
    only and "false" from the boolean false only (not from 1 or 0, nor
    from the strings "true" or "false"). *)
Theorem handle_boolean_decodes (v : pyval) :
  tri_state (handle_boolean v) /\
  (handle_boolean v = "true" <-> v = PBool true) /\
  (handle_boolean v = "false" <-> v = PBool false).
Proof.
  unfold tri_state.
  destruct v as [ | [|] | | | | | ]; simpl;
    (split; [tauto|]); split; split; intros H; try discriminate H; reflexivity.
Qed.

(** ** The search fetcher, further *)

Lemma range_prefix (hi : Z) (post : list Z) :
  forall (pre : list Z) (lo : Z),
    range lo hi = pre ++ post -> pre = range lo (lo + Z.of_nat (List.length pre)).
Proof.
  induction pre as [|a pre IH]; intros lo H.
  - simpl. now rewrite range_nil by lia.
  - destruct (Z_lt_le_dec lo hi) as [Hlt|Hge].
    + rewrite range_cons in H by exact Hlt. simpl in H. injection H as <- H.
      rewrite range_cons by (simpl List.length; lia). f_equal.
      rewrite (IH (lo + 1) H) at 1. f_equal. simpl List.length. lia.
    + rewrite range_nil in H by exact Hge. discriminate H.
Qed.

Lemma length_range (lo hi : Z) : List.length (range lo hi) = Z.to_nat (hi - lo).
Proof. unfold range. now rewrite length_map, length_seq. Qed.

Lemma taken_failure items (server : Z -> response) (page : Z) :
  (status_code (server page) =? 200) = false -> taken items server page = [].
Proof. unfold taken. now intros ->. Qed.

Lemma taken_success items (server : Z -> response) (page : Z) :
  (status_code (server page) =? 200) = true ->
  taken items server page = items (server page).
Proof. unfold taken. now intros ->. Qed.

(** The run of the loop of [fetch_users]: it requests a first part of its
    pages; it returns the batches of those answered with status 200, in
    order; it raises what the batch of the last one requested raises. *)
Lemma fetch_users_loop_trace (server : Z -> response) :
  forall (pages : list Z) (users : list pyval),
  exists pre post,
    pages = pre ++ post /\
    log (fetch_users_loop server pages users) = pre /\
    match result (fetch_users_loop server pages users) with
    | Ok us => us = users ++ flat_map (taken search_items server) pre
    | Raise e =>
        exists pre' p,
          pre = pre' ++ [p] /\ status_code (server p) = 200 /\
          search_batch (server p) = Raise e
    | Timeout => False
    end.
Proof.
  induction pages as [|page pages IH]; intros users.
  - exists [], []. simpl. now rewrite app_nil_r.
  - rewrite fetch_users_loop_step.
    destruct (status_code (server page) =? 200) eqn:Est; simpl negb; cbv iota.
    + pose proof (taken_success search_items server page Est) as Ht.
      change (search_items (server page))
        with (or_nil (search_batch (server page))) in Ht.
      apply Z.eqb_eq in Est.
      destruct (search_batch (server page)) as [items| |] eqn:Eb.
      * cbn [or_nil] in Ht.
        destruct (has_next (server page)); simpl negb; cbv iota.
        -- destruct (IH (users ++ items)) as (pre & post & -> & Hlog & Hres).
           destruct (fetch_users_loop server (pre ++ post) (users ++ items)) as [w r].
           unfold log, result in *. cbn [fst snd] in *. subst w.
           exists (page :: pre), post. repeat split.
           destruct r as [us|e|]; [| |exact Hres].
           ++ subst us. cbn [flat_map]. now rewrite Ht, app_assoc.
           ++ destruct Hres as (pre' & p & -> & Hp).
              exists (page :: pre'), p. now split.
        -- exists [page], pages. repeat split. unfold result. cbn [snd flat_map].
           now rewrite Ht, app_nil_r.
      * exists [page], pages. repeat split. exists [], page. now repeat split.
      * exfalso. unfold search_batch in Eb.
        pose proof (json_not_timeout (server page)).
        destruct (json (server page)) as [data| |]; cbn [bind outcome_seq] in Eb;
          [|discriminate|congruence].
        pose proof (get_default_finished data "items" (PList [])).
        destruct (get_default data "items" (PList [])) as [v| |];
          cbn [bind outcome_seq] in Eb; [|discriminate|congruence].
        now apply iterate_not_timeout in Eb.
    + exists [page], pages. repeat split. unfold result. cbn [snd flat_map].
      now rewrite taken_failure, !app_nil_r by exact Est.
Qed.

(** X7: [fetch_users] requests the pages 1, 2, ..., n in this order, each
    once, for some n that is at most the page cap; with a cap of zero or
    less it requests nothing and returns the empty list. *)
Theorem fetch_users_requests (server : Z -> response) (max_pages : Z) :
  (exists n, 0 <= n <= Z.max 0 max_pages /\
             log (fetch_users server max_pages) = range 1 (n + 1)) /\
  (max_pages <= 0 -> fetch_users server max_pages = ([], Ok [])).
Proof.
  unfold fetch_users. split.
  - destruct (fetch_users_loop_trace server (range 1 (max_pages + 1)) [])
      as (pre & post & Hsplit & -> & _).
    exists (Z.of_nat (List.length pre)).
    pose proof (f_equal (@List.length Z) Hsplit) as Hlen.
    rewrite length_range, length_app in Hlen.
    split; [lia|].
    rewrite (range_prefix _ _ _ _ Hsplit) at 1. f_equal. lia.
  - intros H. now rewrite range_nil by lia.
Qed.

Lemma fetch_users_requests_witness :
  fetch_users (search_pages 3) 0 = ([], Ok []).
Proof.
  apply (proj2 (fetch_users_requests (search_pages 3) 0)). lia.
Defined.

(** X8: what [fetch_users] returns is the concatenation, in the order of the
    pages, of the batches of the requested pages that were answered with
    status 200. *)
Theorem fetch_users_result
    (server : Z -> response) (max_pages : Z) (w : list Z) (users : list pyval)
    (Hret : fetch_users server max_pages = (w, Ok users)) :
  users = flat_map (taken search_items server) w.
Proof.
  unfold fetch_users in Hret.
  destruct (fetch_users_loop_trace server (range 1 (max_pages + 1)) [])
    as (pre & post & _ & Hlog & Hres).
  rewrite Hret in Hlog, Hres. unfold log, result in *. cbn [fst snd] in *.
  now subst.
Qed.

Lemma fetch_users_result_witness :
  [PInt 1; PInt 2]
  = flat_map (taken search_items (failing_at 3 (search_pages 5))) [1; 2; 3].
Proof.
  exact (fetch_users_result (failing_at 3 (search_pages 5)) MAX_USER_PAGES
           [1; 2; 3] [PInt 1; PInt 2] eq_refl).
Defined.

(** X9: what the batch of a search page raises: [JSONDecodeError] when the
    body is not JSON, [AttributeError] when it is JSON but not a mapping,
    [TypeError] when the value under "items" cannot be iterated; a mapping
    without "items" is an empty batch. *)
Theorem search_batch_outcomes (r : response) :
  (body r = None -> search_batch r = Raise JSONDecodeError) /\
  (forall v, body r = Some v -> is_dict v = false ->
             search_batch r = Raise AttributeError) /\
  (forall d, body r = Some (PDict d) ->
             search_batch r = iterate (item_or d "items" (PList []))) /\
  (forall d, body r = Some (PDict d) -> lookup "items" d = None ->
             search_batch r = Ok []).
Proof.
  unfold search_batch, json. repeat split.
  - now intros ->.
  - intros v -> Hv. destruct v; try reflexivity. discriminate Hv.
  - now intros d ->.
  - intros d -> Hd. cbn. now rewrite Hd.
Qed.

Lemma search_batch_outcomes_witness :
  search_batch (mkResponse 200 None false) = Raise JSONDecodeError /\
  search_batch (mkResponse 200 (Some (PList [])) false) = Raise AttributeError /\
  search_batch (mkResponse 200 (Some (PDict [("items", PNone)])) false)
  = Raise TypeError /\
  search_batch (mkResponse 200 (Some (PDict [("message", PStr "ok")])) false) = Ok [].
Proof.
  split; [|split; [|split]].
  - apply (proj1 (search_batch_outcomes _)). reflexivity.
  - apply (proj1 (proj2 (search_batch_outcomes _)) (PList [])); reflexivity.
  - apply (proj1 (proj2 (proj2 (search_batch_outcomes _))) [("items", PNone)]).
    reflexivity.
  - apply (proj2 (proj2 (proj2 (search_batch_outcomes _)))
             [("message", PStr "ok")]); reflexivity.
Defined.




(** ** The listing fetcher, further *)

Section ListingTrace.

Variable server : Z -> response.
Variable max_repos : Z.

Lemma falsy_iterate (data : pyval) :
  truthy data = false -> or_nil (iterate data) = [].
Proof.
  destruct data as [ | | | | s | l | d]; try reflexivity; simpl.
  - destruct s; [reflexivity | discriminate].
  - destruct l; [reflexivity | discriminate].
  - destruct d; [reflexivity | discriminate].
Qed.

(** An iteration that leaves the loop with a list has added to it what
    the page gives when answered with status 200, nothing otherwise. *)
Lemma iteration_leave_ok (r : response) (repos l : list pyval) :
  iteration max_repos r repos = Leave (Ok l) ->
  l = repos ++ (if status_code r =? 200 then listing_items r else []).
Proof.
  unfold iteration, listing_items, listing_batch.
  destruct (status_code r =? 200); simpl negb; cbv iota.
  - destruct (json r) as [data| |]; cbn [bind outcome_seq]; try discriminate.
    destruct (truthy data) eqn:Et; simpl negb; cbv iota.
    + destruct (iterate data) as [items| |]; try discriminate. cbv zeta.
      destruct (_ || _); [|discriminate]. now intros [= <-].
    + intros [= <-]. now rewrite falsy_iterate, app_nil_r.
  - intros [= <-]. now rewrite app_nil_r.
Qed.


(** The run of the loop of [fetch_repositories]: the pages requested are
    consecutive; a list returned is made of the batches of those answered
    with status 200; an error raised is that of the last page requested. *)
Lemma fetch_repositories_loop_trace :
  forall (fuel : nat) (page : Z) (repos : list pyval),
    let m := fetch_repositories_loop server max_repos fuel page repos in
    log m = range page (page + Z.of_nat (List.length (log m))) /\
    match result m with
    | Ok acc =>
        acc = repos ++ flat_map (taken listing_items server) (log m) /\
        (1 <= List.length (log m))%nat
    | Raise e =>
        exists p, log m = range page (p + 1) /\ page <= p /\
                  iteration max_repos (server p)
                    (repos ++ flat_map (taken listing_items server) (range page p))
                  = Leave (Raise e)
    | Timeout => True
    end.
Proof.
  induction fuel as [|fuel IH]; intros page repos; cbv zeta.
  - simpl. split; [now rewrite range_nil by lia | exact I].
  - rewrite fetch_repositories_loop_step.
    destruct (iteration max_repos (server page) repos) as [o|repos'] eqn:E.
    + unfold log, result. cbn [fst snd List.length].
      split; [rewrite range_cons, range_nil by lia; reflexivity|].
      destruct o as [acc|e|]; [| |exact I].
      * apply iteration_leave_ok in E. split; [|lia].
        cbn [flat_map]. unfold taken at 1. now rewrite app_nil_r.
      * exists page. rewrite range_cons, (range_nil (page + 1)) by lia.
        rewrite (range_nil page page) by lia. cbn [flat_map].
        rewrite app_nil_r. repeat split; [lia | exact E].
    + apply iteration_continue in E as (Hst & -> & _ & _).
      specialize (IH (page + 1) (repos ++ listing_items (server page))).
      cbv zeta in IH.
      destruct (fetch_repositories_loop server max_repos fuel (page + 1)
                  (repos ++ listing_items (server page))) as [w r].
      unfold log, result in *. cbn [fst snd List.length] in *.
      destruct IH as [Hlog Hres].
      assert (Ht : taken listing_items server page = listing_items (server page)).
      { apply taken_success. now apply Z.eqb_eq. }
      split.
      * rewrite range_cons by lia. f_equal. rewrite Hlog at 1. f_equal. lia.
      * destruct r as [acc|e|]; [| |exact I].
        -- destruct Hres as [-> Hlen]. split; [|lia].
           cbn [flat_map]. now rewrite Ht, app_assoc.
        -- destruct Hres as (p & Hw & Hp & Hit). exists p.
           rewrite Hw. rewrite (range_cons page (p + 1)) by lia.
           split; [reflexivity|]. split; [lia|].
           rewrite (range_cons page p) by lia. cbn [flat_map].
           now rewrite Ht, app_assoc.
Qed.

(** If a requested page makes every iteration leave the loop with the
    list unchanged, the loop went through the pages before it, took their
    batches, stayed below the cap, and stopped there. *)
Lemma fetch_repositories_loop_leaves_at (k : Z) :
  (forall repos, iteration max_repos (server k) repos = Leave (Ok repos)) ->
  forall (fuel : nat) (page : Z) (repos : list pyval),
    In k (log (fetch_repositories_loop server max_repos fuel page repos)) ->
    let acc := repos ++ flat_map (fun p => listing_items (server p)) (range page k) in
    fetch_repositories_loop server max_repos fuel page repos
    = (range page (k + 1), Ok acc) /\
    page <= k /\
    (page < k -> Z.of_nat (List.length acc) < max_repos).
Proof.
  intros Hk. induction fuel as [|fuel IH]; intros page repos Hin; [destruct Hin|].
  rewrite fetch_repositories_loop_step in Hin |- *.
  destruct (Z.eq_dec page k) as [->|Hne].
  - rewrite Hk in *.
    rewrite range_nil by lia. rewrite range_cons, range_nil by lia.
    simpl. rewrite app_nil_r. repeat split; lia.
  - destruct (iteration max_repos (server page) repos) as [o|repos'] eqn:E.
    + destruct Hin as [Hin|[]]. congruence.
    + apply iteration_continue in E as (_ & -> & _ & Hcap).
      specialize (IH (page + 1) (repos ++ listing_items (server page))).
      destruct (fetch_repositories_loop server max_repos fuel (page + 1)
                  (repos ++ listing_items (server page))) as [w r].
      destruct Hin as [Hin|Hin]; [congruence|].
      destruct (IH Hin) as (IH1 & IH2 & IH3). clear IH.
      injection IH1 as -> ->.
      rewrite (range_cons page (k + 1)), (range_cons page k) by lia.
      cbn [flat_map]. rewrite app_assoc.
      repeat split; [lia|]. intros _.
      destruct (Z.eq_dec (page + 1) k) as [<-|Hne'].
      * rewrite range_nil by lia. simpl. now rewrite app_nil_r.
      * apply IH3. lia.
Qed.

End ListingTrace.

(** X11: [fetch_repositories] always requests page 1, also when the cap is zero
    or negative, and requests the pages 1, 2, ..., n in this order, each
    once. *)
Theorem fetch_repositories_requests (server : Z -> response) (max_repos : Z) :
  exists n, 1 <= n /\
            log (fetch_repositories server max_repos) = range 1 (n + 1).
Proof.
  pose proof (fetch_repositories_finished server max_repos) as Hfin.
  unfold fetch_repositories in *. rewrite log_bind_ret.
  destruct (fetch_repositories_loop_trace server max_repos (enough max_repos) 1 [])
    as [Hlog Hres].
  fold (accumulated server max_repos) in Hlog, Hres.
  destruct (accumulated server max_repos) as [w r].
  unfold log, result in *. cbn [fst snd] in *.
  exists (Z.of_nat (List.length w)). split.
  - destruct r as [acc|e|].
    + lia.
    + destruct Hres as (p & Hw & Hp & _).
      rewrite Hw, length_range. lia.
    + exfalso. apply Hfin. reflexivity.
  - rewrite Hlog at 1. f_equal. lia.
Qed.

(** X12: what [fetch_repositories] returns is the slice up to the cap of the
    concatenation, in the order of the pages, of the batches of the
    requested pages that were answered with status 200. *)
Theorem fetch_repositories_result
    (server : Z -> response) (max_repos : Z) (w : list Z) (repos : list pyval)
    (Hret : fetch_repositories server max_repos = (w, Ok repos)) :
  repos = slice_to (flat_map (taken listing_items server) w) max_repos.
Proof.
  unfold fetch_repositories in Hret.
  destruct (fetch_repositories_loop_trace server max_repos (enough max_repos) 1 [])
    as [_ Hres].
  fold (accumulated server max_repos) in Hres.
  destruct (accumulated server max_repos) as [w' [acc| |]];
    cbn [bind M_seq ret] in Hret; try discriminate Hret.
  injection Hret as <- <-. unfold log, result in Hres. cbn [fst snd] in Hres.
  destruct Hres as [-> _]. now rewrite app_nil_r.
Qed.

Lemma fetch_repositories_result_witness :
  [PInt 1; PInt (-1); PInt 2]
  = slice_to (flat_map (taken listing_items (listing_pages 5)) [1; 2]) 3.
Proof.
  exact (fetch_repositories_result (listing_pages 5) 3 [1; 2]
           [PInt 1; PInt (-1); PInt 2] eq_refl).
Defined.

(** X13: [fetch_repositories] stops at an empty page: when a requested page
    [k] is answered with status 200 and a body that is false (an empty
    list, but also null, 0 or an empty mapping), no later page is
    requested, nothing is raised, and the items of pages 1..k-1 are
    returned. *)
Theorem fetch_repositories_stops_at_empty_page
    (server : Z -> response) (max_repos k : Z) (data : pyval)
    (Hst : status_code (server k) = 200)
    (Hbody : body (server k) = Some data)
    (Hempty : truthy data = false)
    (Hin : In k (log (fetch_repositories server max_repos))) :
  fetch_repositories server max_repos
  = (range 1 (k + 1),
     Ok (flat_map (fun p => listing_items (server p)) (range 1 k))).
Proof.
  assert (Hk : forall repos, iteration max_repos (server k) repos = Leave (Ok repos)).
  { intros repos. unfold iteration, json. rewrite Hst, Hbody. simpl negb. cbv iota.
    now rewrite Hempty. }
  unfold fetch_repositories in *. rewrite log_bind_ret in Hin. unfold accumulated in *.
  destruct (fetch_repositories_loop_leaves_at server max_repos k Hk _ _ _ Hin)
    as (E & Hk1 & Hcap).
  simpl app in E, Hcap.
  rewrite (bind_ret_ok _ _ _ _ E). do 2 f_equal.
  apply slice_to_below.
  destruct (Z.eq_dec 1 k) as [<-|Hne].
  - left. now rewrite range_nil by lia.
  - right. assert (H : 1 < k) by lia. specialize (Hcap H). lia.
Qed.

Lemma fetch_repositories_stops_at_empty_page_witness :
  fetch_repositories (malformed_at 3 PNone (listing_pages 5)) MAX_REPOS_PER_USER
  = ([1; 2; 3], Ok [PInt 1; PInt (-1); PInt 2; PInt (-2)]).
Proof.
  assert (Hin : In 3 (log (fetch_repositories (malformed_at 3 PNone (listing_pages 5))
                             MAX_REPOS_PER_USER)))
    by (vm_compute; tauto).
  exact (fetch_repositories_stops_at_empty_page
           (malformed_at 3 PNone (listing_pages 5)) MAX_REPOS_PER_USER 3 PNone
           eq_refl eq_refl eq_refl Hin).
Defined.



(** ** The records, further *)

Lemma py_or_text (v : pyval) : text_or_value (py_or v (PStr "")).
Proof.
  unfold text_or_value, py_or. destruct (truthy v) eqn:E; [now right | now left].
Qed.

Lemma handle_boolean_tri_state (v : pyval) : tri_state (handle_boolean v).
Proof. unfold tri_state. destruct v as [ | [|] | | | | | ]; simpl; tauto. Qed.

Lemma clean_company_company_text
    (Hok : upper_table_ok upper_of) (v : pyval) (t : text) :
  clean_company v = Ok t -> company_text t.
Proof.
  unfold company_text. intros H. destruct (truthy v) eqn:Ht.
  - destruct v; try (unfold clean_company in H; rewrite Ht in H; discriminate H).
    rewrite clean_company_str in H.
    destruct (Nat.eqb (List.length s) 0); injection H as <-.
    + now split.
    + split; [apply (upper_cleaned Hok) | apply (rstrip_cleaned Hok)].
  - unfold clean_company in H. rewrite Ht in H. injection H as <-. now split.
Qed.

Lemma get_default_dict (d : list (string * pyval)) (k : string) (default : pyval) :
  get_default (PDict d) k default = Ok (item_or d k default).
Proof. reflexivity. Qed.

Lemma get_default_not_dict (v : pyval) (k : string) (default : pyval) :
  is_dict v = false -> get_default v k default = Raise AttributeError.
Proof. destruct v; try reflexivity. discriminate. Qed.

(** The user record made from a mapping, once the company is cleaned. *)
Lemma user_data_dict (d : list (string * pyval)) :
  user_data (PDict d) =
  company <- clean_company (item_or d "company" PNone) ;;
  ret (User.mk (item_or d "login" (PStr ""))
         (py_or (item_or d "name" PNone) (PStr "")) company
         (py_or (item_or d "location" PNone) (PStr ""))
         (py_or (item_or d "email" PNone) (PStr ""))
         (handle_boolean (item_or d "hireable" PNone))
         (py_or (item_or d "bio" PNone) (PStr ""))
         (item_or d "public_repos" (PInt 0)) (item_or d "followers" (PInt 0))
         (item_or d "following" (PInt 0)) (item_or d "created_at" (PStr ""))).
Proof.
  unfold user_data, get. rewrite !get_default_dict. cbn [bind outcome_seq].
  destruct (clean_company (item_or d "company" PNone)); reflexivity.
Qed.

(** The repository record made from a mapping, once the license is read. *)
Lemma repo_data_dict (username : pyval) (d : list (string * pyval)) :
  repo_data username (PDict d) =
  license <- license_name (PDict d) ;;
  ret (Repo.mk username (item_or d "full_name" (PStr ""))
         (item_or d "created_at" (PStr ""))
         (item_or d "stargazers_count" (PInt 0))
         (item_or d "watchers_count" (PInt 0))
         (py_or (item_or d "language" PNone) (PStr ""))
         (handle_boolean (item_or d "has_projects" PNone))
         (handle_boolean (item_or d "has_wiki" PNone)) license).
Proof.
  unfold repo_data, get. rewrite !get_default_dict. cbn [bind outcome_seq].
  reflexivity.
Qed.

Lemma user_data_row_ok
    (Hok : upper_table_ok upper_of) (details : pyval) (row : User.t) :
  user_data details = Ok row -> user_row_ok row.
Proof.
  destruct details as [ | | | | | | d]; try discriminate.
  rewrite user_data_dict.
  destruct (clean_company (item_or d "company" PNone)) as [c| |] eqn:E;
    cbn [bind outcome_seq ret]; try discriminate.
  intros [= <-]. unfold user_row_ok. cbn.
  repeat split; try apply py_or_text; try apply handle_boolean_tri_state;
    apply (clean_company_company_text Hok _ _ E).
Qed.

Lemma repo_data_row_ok (username repo : pyval) (row : Repo.t) :
  repo_data username repo = Ok row -> repo_row_ok row.
Proof.
  destruct repo as [ | | | | | | d]; try discriminate.
  rewrite repo_data_dict.
  destruct (license_name (PDict d)) as [l| |]; cbn [bind outcome_seq ret];
    try discriminate.
  intros [= <-]. unfold repo_row_ok. cbn.
  repeat split; try apply py_or_text; apply handle_boolean_tri_state.
Qed.

(** X15: what the record of a user is made of when the details are a mapping
    and the company can be cleaned: the fields read with a default take
    the default only when the key is missing, so that an explicit null
    under "login", "created_at" or a counter is kept as it is, while the
    fields read with [or ''] turn a null, like every value that is false,
    into the empty text. *)
Theorem user_data_fields
    (d : list (string * pyval)) (row : User.t)
    (Hrow : user_data (PDict d) = Ok row) :
  User.login row = item_or d "login" (PStr "") /\
  User.created_at row = item_or d "created_at" (PStr "") /\
  User.public_repos row = item_or d "public_repos" (PInt 0) /\
  User.followers row = item_or d "followers" (PInt 0) /\
  User.following row = item_or d "following" (PInt 0) /\
  (lookup "login" d = Some PNone -> User.login row = PNone) /\
  (lookup "name" d = Some PNone -> User.name row = PStr "") /\
  clean_company (item_or d "company" PNone) = Ok (User.company row) /\
  User.hireable row = handle_boolean (item_or d "hireable" PNone).
Proof.
  rewrite user_data_dict in Hrow.
  destruct (clean_company (item_or d "company" PNone)) as [c| |];
    cbn [bind outcome_seq ret] in Hrow; try discriminate Hrow.
  injection Hrow as <-. cbn.
  repeat split; unfold item_or; intros ->; reflexivity.
Qed.


(** X16: when [user_data] fails and when it does not: it raises
    [AttributeError] when the details are not a mapping and when the
    company is a value that is true and not a string; in every other case
    it returns a record. *)
Theorem user_data_outcomes (details : pyval) :
  (is_dict details = false -> user_data details = Raise AttributeError) /\
  (forall d, details = PDict d ->
     let company := item_or d "company" PNone in
     (truthy company = true -> is_str company = false ->
      user_data details = Raise AttributeError) /\
     (truthy company = false \/ is_str company = true ->
      exists row, user_data details = Ok row)).
Proof.
  split.
  - intros H. unfold user_data. now rewrite get_default_not_dict.
  - intros d ->. cbv zeta. rewrite user_data_dict. split.
    + intros Ht Hs. unfold clean_company. rewrite Ht.
      destruct (item_or d "company" PNone); try discriminate Hs; reflexivity.
    + intros H.
      assert (Hc : exists c, clean_company (item_or d "company" PNone) = Ok c).
      { destruct H as [H|H].
        - exists "". unfold clean_company. now rewrite H.
        - destruct (item_or d "company" PNone); try discriminate H.
          rewrite clean_company_str. eexists. reflexivity. }
      destruct Hc as [c ->]. eexists. reflexivity.
Qed.


(** The license name of a mapping, in terms of the value under
    "license". *)
Lemma license_name_dict (d : list (string * pyval)) :
  license_name (PDict d) =
  if truthy (item_or d "license" PNone)
  then subscript (item_or d "license" PNone) "key"
  else Ok (PStr "").
Proof.
  unfold license_name, get. rewrite get_default_dict. cbn [bind outcome_seq].
  unfold item_or. cbn [subscript].
  destruct (lookup "license" d) as [lic|]; [|reflexivity].
  destruct (truthy lic); reflexivity.
Qed.

(** X17: when [repo_data] fails and when it does not, for a user name and a
    repository: it raises [AttributeError] when the repository is not a
    mapping, [TypeError] when the license is a value that is true and not
    a mapping, [KeyError] when the license is a non-empty mapping without
    "key"; in every other case it returns a record that carries the user
    name as its login. *)
Theorem repo_data_outcomes (username repo : pyval) :
  (is_dict repo = false -> repo_data username repo = Raise AttributeError) /\
  (forall d, repo = PDict d ->
     let license := item_or d "license" PNone in
     (truthy license = true -> is_dict license = false ->
      repo_data username repo = Raise TypeError) /\
     (forall l, license = PDict l -> l <> [] -> lookup "key" l = None ->
      repo_data username repo = Raise KeyError) /\
     (truthy license = false \/
      (exists l k, license = PDict l /\ lookup "key" l = Some k) ->
      exists row, repo_data username repo = Ok row /\ Repo.login row = username)).
Proof.
  split.
  - intros H. unfold repo_data. now rewrite get_default_not_dict.
  - intros d ->. cbv zeta. rewrite repo_data_dict, license_name_dict.
    destruct (item_or d "license" PNone) as [ | | | | | |l] eqn:E; split; try split;
      try (intros Ht Hd; first [discriminate Ht | discriminate Hd | rewrite Ht; reflexivity]);
      try (intros l' Hl; discriminate Hl);
      try (intros [Hf | (l' & k & Hl & _)];
           [rewrite Hf; eexists; split; reflexivity | discriminate Hl]).
    + intros l' [= <-] Hl Hk. destruct l as [|kv l]; [congruence|].
      cbn [truthy List.length Nat.eqb negb subscript bind outcome_seq].
      now rewrite Hk.
    + intros [Hf | (l' & k & [= <-] & Hk)].
      * rewrite Hf. eexists. split; reflexivity.
      * destruct l as [|kv l]; [discriminate Hk|].
        cbn [truthy List.length Nat.eqb negb subscript bind outcome_seq].
        rewrite Hk. eexists. split; reflexivity.
Qed.

Lemma repo_data_outcomes_witness :
  repo_data (PStr "u") (PStr "x") = Raise AttributeError /\
  repo_data (PStr "u") (PDict [("license", PStr "MIT")]) = Raise TypeError /\
  repo_data (PStr "u") (PDict [("license", PDict [("name", PStr "MIT")])])
  = Raise KeyError /\
  exists row, repo_data (PStr "u") (PDict [("license", PNone)]) = Ok row /\
              Repo.login row = PStr "u".
Proof.
  split; [|split; [|split]].
  - apply (proj1 (repo_data_outcomes (PStr "u") (PStr "x"))). reflexivity.
  - apply (proj1 (proj2 (repo_data_outcomes (PStr "u") _) _ eq_refl)); reflexivity.
  - apply (proj1 (proj2 (proj2 (repo_data_outcomes (PStr "u") _) _ eq_refl))
             [("name", PStr "MIT")]); [reflexivity | discriminate | reflexivity].
  - apply (proj2 (proj2 (proj2 (repo_data_outcomes (PStr "u") _) _ eq_refl))).
    left. reflexivity.
Defined.

(** ** [main], further *)

(** X18: without a credential [main] prints the two lines of the token loader
    and exits with status 1, whatever the server would answer: nothing
    depends on the network. *)
Theorem main_without_token
    (env : environ) (net : network)
    (Hmissing : env "GITHUB_TOKEN" = None \/ env "GITHUB_TOKEN" = Some "") :
  main env net = ([not_found_msg; please_set_msg], Raise (SystemExit 1)).
Proof.
  unfold main, get_github_token, os_getenv.
  destruct Hmissing as [-> | ->]; reflexivity.
Qed.


(** The loop of [main] keeps what holds of every record that [user_data]
    and [repo_data] return. *)
Lemma users_loop_invariant (net : network)
    (P : User.t -> Prop) (Q : Repo.t -> Prop) :
  (forall details row, user_data details = Ok row -> P row) ->
  (forall username repo row, repo_data username repo = Ok row -> Q row) ->
  forall users idx processed_users all_repositories users_table repos_table,
    users_loop net idx users processed_users all_repositories
    = Ok (users_table, repos_table) ->
    Forall P processed_users -> Forall Q all_repositories ->
    Forall P users_table /\ Forall Q repos_table.
Proof.
  intros HP HQ.
  assert (Hrepos : forall username repos acc table,
             repos_loop username repos acc = Ok table ->
             Forall Q acc -> Forall Q table).
  { induction repos as [|repo repos IH]; intros acc table H Hacc.
    - cbn in H. now injection H as <-.
    - cbn [repos_loop] in H.
      destruct (repo_data username repo) as [row| |] eqn:E;
        cbn [bind outcome_seq] in H; try discriminate.
      apply (IH _ _ H). apply Forall_app. split; [exact Hacc|].
      constructor; [exact (HQ _ _ _ E) | constructor]. }
  induction users as [|user users IH]; intros idx pu ar ut rt H Hpu Har.
  - cbn in H. injection H as <- <-. now split.
  - cbn [users_loop] in H.
    destruct (get user "login") as [username| |];
      cbn [bind outcome_seq] in H; try discriminate.
    destruct (fetch_user_details (details_of net idx) username) as [details| |];
      cbn [bind outcome_seq] in H; try discriminate.
    destruct (negb (truthy details)); [exact (IH _ _ _ _ _ H Hpu Har)|].
    destruct (user_data details) as [row| |] eqn:Er;
      cbn [bind outcome_seq] in H; try discriminate.
    destruct (result (fetch_repositories (repos_of net idx username) MAX_REPOS_PER_USER))
      as [repos| |]; cbn [bind outcome_seq] in H; try discriminate.
    destruct (repos_loop username repos ar) as [ar'| |] eqn:El;
      cbn [bind outcome_seq] in H; try discriminate.
    apply (IH _ _ _ _ _ H).
    + apply Forall_app. split; [exact Hpu|].
      constructor; [exact (HP _ _ Er) | constructor].
    + exact (Hrepos _ _ _ _ El Har).
Qed.

(** X19: every record of the two tables [main] ends with is well formed: the
    name, location, email and biography of a user and the language of a
    repository are the empty text or a value that is true (never null),
    the company is upper-cased with no whitespace at its end, and the
    boolean columns hold "true", "false" or the empty text. *)
Theorem main_rows_well_formed
    (Hok : upper_table_ok upper_of)
    (env : environ) (net : network) (out : list string)
    (users_table : list User.t) (repos_table : list Repo.t)
    (Hmain : main env net = (out, Ok (users_table, repos_table))) :
  Forall user_row_ok users_table /\ Forall repo_row_ok repos_table.
Proof.
  apply main_returns in Hmain as (users & _ & Hloop).
  apply (users_loop_invariant net user_row_ok repo_row_ok
           (user_data_row_ok Hok) repo_data_row_ok _ _ _ _ _ _ Hloop); constructor.
Qed.


Lemma fetch_repositories_length (server : Z -> response) (max_repos : Z)
    (repos : list pyval) :
  0 <= max_repos ->
  result (fetch_repositories server max_repos) = Ok repos ->
  (List.length repos <= Z.to_nat max_repos)%nat.
Proof.
  intros Hcap. unfold fetch_repositories, result.
  destruct (accumulated server max_repos) as [w [acc| |]];
    cbn [bind M_seq ret snd]; try discriminate.
  intros [= <-]. rewrite slice_to_cap by exact Hcap.
  rewrite length_firstn. lia.
Qed.

Lemma repos_loop_length (username : pyval) :
  forall repos acc table,
    repos_loop username repos acc = Ok table ->
    List.length table = (List.length acc + List.length repos)%nat.
Proof.
  induction repos as [|repo repos IH]; intros acc table H.
  - cbn in H. injection H as <-. simpl. lia.
  - cbn [repos_loop] in H.
    destruct (repo_data username repo) as [row| |];
      cbn [bind outcome_seq] in H; try discriminate.
    rewrite (IH _ _ H), length_app. simpl. lia.
Qed.

(** The loop of [main] adds at most one user record for each user and,
    for each user record it adds, at most [MAX_REPOS_PER_USER] repository
    records. *)
Lemma users_loop_sizes (net : network) :
  forall users idx processed_users all_repositories users_table repos_table,
    users_loop net idx users processed_users all_repositories
    = Ok (users_table, repos_table) ->
    (List.length processed_users <= List.length users_table
     <= List.length processed_users + List.length users)%nat /\
    (List.length repos_table + 500 * List.length processed_users
     <= List.length all_repositories + 500 * List.length users_table)%nat.
Proof.
  induction users as [|user users IH]; intros idx pu ar ut rt H.
  - cbn in H. injection H as <- <-. simpl. lia.
  - cbn [users_loop] in H.
    destruct (get user "login") as [username| |];
      cbn [bind outcome_seq] in H; try discriminate.
    destruct (fetch_user_details (details_of net idx) username) as [details| |];
      cbn [bind outcome_seq] in H; try discriminate.
    destruct (negb (truthy details)).
    { apply IH in H. simpl. lia. }
    destruct (user_data details) as [row| |];
      cbn [bind outcome_seq] in H; try discriminate.
    destruct (result (fetch_repositories (repos_of net idx username) MAX_REPOS_PER_USER))
      as [repos| |] eqn:Ef; cbn [bind outcome_seq] in H; try discriminate.
    destruct (repos_loop username repos ar) as [ar'| |] eqn:El;
      cbn [bind outcome_seq] in H; try discriminate.
    apply fetch_repositories_length in Ef; [|unfold MAX_REPOS_PER_USER; lia].
    apply repos_loop_length in El. apply IH in H.
    rewrite length_app in H. unfold MAX_REPOS_PER_USER in Ef.
    change (Z.to_nat 500) with 500%nat in Ef. simpl List.length in *. lia.
Qed.

(** X20: the sizes of the tables [main] ends with: at most one user record for
    each user the search returned, and at most [MAX_REPOS_PER_USER] (500)
    repository records for each user record. *)
Theorem main_table_sizes
    (env : environ) (net : network) (out : list string)
    (users_table : list User.t) (repos_table : list Repo.t)
    (Hmain : main env net = (out, Ok (users_table, repos_table))) :
  (List.length repos_table <= 500 * List.length users_table)%nat /\
  exists users,
    result (fetch_users (search net) MAX_USER_PAGES) = Ok users /\
    (List.length users_table <= List.length users)%nat.
Proof.
  apply main_returns in Hmain as (users & Hu & Hloop).
  apply users_loop_sizes in Hloop. simpl in Hloop.
  split; [lia|]. exists users. split; [exact Hu | lia].
Qed.


(** A user whose details are not served is passed over: the loop goes on
    with the tables as they are. *)
Lemma users_loop_all_skipped (net : network) :
  (forall idx username, status_code (details_of net idx username) <> 200) ->
  forall users idx processed_users all_repositories,
    Forall (fun user => is_dict user = true) users ->
    users_loop net idx users processed_users all_repositories
    = Ok (processed_users, all_repositories).
Proof.
  intros Hfail. induction users as [|user users IH]; intros idx pu ar Hd.
  - reflexivity.
  - inversion Hd as [|u us Hu Hus]; subst.
    destruct user; try discriminate Hu.
    cbn [users_loop get get_default bind outcome_seq].
    unfold fetch_user_details.
    destruct (status_code _ =? 200) eqn:E;
      [apply Z.eqb_eq in E; now apply Hfail in E|].
    cbn [negb bind outcome_seq ret truthy List.length Nat.eqb].
    now apply IH.
Qed.

(** X21: with a credential, [main] completes with two empty tables when the
    first page of the search is not served, and also when the search gives
    users (mappings) and the details of none of them are served: a failed
    fetch never stops the run. *)
Theorem main_when_fetches_fail
    (env : environ) (net : network) (token : text)
    (Htoken : get_github_token env = ([], Ok token)) :
  (status_code (search net 1) <> 200 -> main env net = ([], Ok ([], []))) /\
  (forall w users,
     fetch_users (search net) MAX_USER_PAGES = (w, Ok users) ->
     Forall (fun user => is_dict user = true) users ->
     (forall idx username, status_code (details_of net idx username) <> 200) ->
     main env net = ([], Ok ([], []))).
Proof.
  split.
  - intros Hfail. unfold main. rewrite Htoken. cbn [bind M_seq].
    unfold fetch_users, MAX_USER_PAGES.
    rewrite range_cons by lia. rewrite fetch_users_loop_step.
    destruct (status_code (search net 1) =? 200) eqn:E;
      [apply Z.eqb_eq in E; contradiction|].
    reflexivity.
  - intros w users Hu Hd Hfail. unfold main. rewrite Htoken, Hu.
    cbn [bind M_seq quiet snd lift].
    now rewrite (users_loop_all_skipped net Hfail users 1 [] [] Hd).
Qed.


Lemma users_loop_needs_mappings (net : network) :
  forall users idx processed_users all_repositories tables,
    users_loop net idx users processed_users all_repositories = Ok tables ->
    Forall (fun user => is_dict user = true) users.
Proof.
  induction users as [|user users IH]; intros idx pu ar tables H; [constructor|].
  cbn [users_loop] in H.
  destruct (get user "login") as [username| |] eqn:Eu;
    cbn [bind outcome_seq] in H; try discriminate.
  constructor; [destruct user; try discriminate Eu; reflexivity|].
  destruct (fetch_user_details (details_of net idx) username) as [details| |];
    cbn [bind outcome_seq] in H; try discriminate.
  destruct (negb (truthy details)); [exact (IH _ _ _ _ H)|].
  destruct (user_data details) as [row| |];
    cbn [bind outcome_seq] in H; try discriminate.
  destruct (result (fetch_repositories (repos_of net idx username) MAX_REPOS_PER_USER))
    as [repos| |]; cbn [bind outcome_seq] in H; try discriminate.
  destruct (repos_loop username repos ar) as [ar'| |];
    cbn [bind outcome_seq] in H; try discriminate.
  exact (IH _ _ _ _ H).
Qed.

(** X22: [main] ends with its tables only if every item the search returned is
    a mapping and the details served for every user it kept are a
    mapping: one item or one profile of another shape makes the whole run
    raise, with no table at all. *)
Theorem main_needs_mappings
    (env : environ) (net : network) (out : list string)
    (tables : list User.t * list Repo.t)
    (Hmain : main env net = (out, Ok tables)) :
  exists users,
    result (fetch_users (search net) MAX_USER_PAGES) = Ok users /\
    Forall (fun user => is_dict user = true) users /\
    forall iu, In iu (filter (detail_ok net) (enumerate 1 users)) ->
               exists d, fetched_details net iu = Ok (PDict d).
Proof.
  apply main_returns in Hmain as (users & Hu & Hloop).
  exists users. split; [exact Hu|].
  split; [exact (users_loop_needs_mappings _ _ _ _ _ _ Hloop)|].
  destruct tables as [ut rt].
  apply users_loop_tables in Hloop as (rows & _ & _ & _ & Hrows & _).
  intros iu Hiu.
  destruct (Forall2_in_l _ _ _ Hrows iu Hiu) as (row & _ & details & Hd & _ & Hr).
  destruct details; try discriminate Hr. now exists d.
Qed.


End Script.

(** * Examples with the sample uppercase mapping *)

Ltac decide_order :=
  repeat match goal with
         | |- context [(?a <=? ?b)%N] => destruct (N.leb_spec a b); try lia
         | |- context [(?a =? ?b)%N] => destruct (N.eqb_spec a b); try lia
         | H : context [(?a <=? ?b)%N] |- _ => destruct (N.leb_spec a b); try lia
         | H : context [(?a =? ?b)%N] |- _ => destruct (N.eqb_spec a b); try lia
         end.

Lemma sample_upper_cases (c : N) :
  ((97 <= c <= 122)%N /\ sample_upper c = [(c - 32)%N]) \/
  (c = 223%N /\ sample_upper c = [83%N; 83%N]) \/
  (c = 233%N /\ sample_upper c = [201%N]) \/
  (c = 329%N /\ sample_upper c = [700%N; 78%N]) \/
  (((c < 97)%N \/ (122 < c)%N) /\ c <> 223%N /\ c <> 233%N /\ c <> 329%N /\
   sample_upper c = [c]).
Proof.
  unfold sample_upper. decide_order; cbn [andb];
    first [ left; split; [lia | reflexivity]
          | right; left; split; [lia | reflexivity]
          | right; right; left; split; [lia | reflexivity]
          | right; right; right; left; split; [lia | reflexivity]
          | right; right; right; right; repeat split; solve [lia | reflexivity] ].
Qed.

Lemma sample_upper_fixed (d : N) :
  ((d < 97)%N \/ (122 < d)%N) -> d <> 223%N -> d <> 233%N -> d <> 329%N ->
  sample_upper d = [d].
Proof.
  intros H1 H2 H3 H4.
  destruct (sample_upper_cases d) as [[H _]|[[H _]|[[H _]|[[H _]|(_ & _ & _ & _ & H)]]]];
    try lia; try contradiction. exact H.
Qed.

Lemma capital_is_not_space (d : N) : (65 <= d <= 90)%N -> is_space d = false.
Proof. intros H. unfold is_space. decide_order; reflexivity. Qed.

Lemma small_is_not_space (c : N) : (97 <= c <= 122)%N -> is_space c = false.
Proof. intros H. unfold is_space. decide_order; reflexivity. Qed.

(** The sample mapping has what is used of the mapping of the
    interpreter. *)
Lemma sample_upper_ok : upper_table_ok sample_upper.
Proof.
  unfold upper_table_ok. repeat split.
  - intros c. destruct (sample_upper_cases c)
      as [[_ ->]|[[_ ->]|[[_ ->]|[[_ ->]|(_ & _ & _ & _ & ->)]]]]; discriminate.
  - intros c. destruct (sample_upper_cases c)
      as [[H E]|[[_ E]|[[_ E]|[[_ E]|(H1 & H2 & H3 & H4 & E)]]]]; rewrite E;
      try reflexivity; cbn [flat_map]; rewrite app_nil_r.
    + apply sample_upper_fixed; lia.
    + exact E.
  - intros c Hs. destruct (sample_upper_cases c)
      as [[H _]|[[-> _]|[[-> _]|[[-> _]|(_ & _ & _ & _ & E)]]]];
      try discriminate Hs; [|exact E].
    rewrite small_is_not_space in Hs by exact H. discriminate Hs.
  - intros c d Hs. destruct (sample_upper_cases c)
      as [[H E]|[[_ E]|[[_ E]|[[_ E]|(_ & _ & _ & _ & E)]]]]; rewrite E.
    + intros [<-|[]]. apply capital_is_not_space. lia.
    + intros [<-|[<-|[]]]; reflexivity.
    + intros [<-|[]]; reflexivity.
    + intros [<-|[<-|[]]]; reflexivity.
    + intros [<-|[]]. exact Hs.
  - intros c. destruct (sample_upper_cases c)
      as [[H E]|[[_ E]|[[_ E]|[[_ E]|(_ & _ & _ & _ & E)]]]]; rewrite E.
    + intros [H64|[]]. lia.
    + intros [H64|[H64|[]]]; discriminate H64.
    + intros [H64|[]]; discriminate H64.
    + intros [H64|[H64|[]]]; discriminate H64.
    + intros [H64|[]]. now symmetry.
Qed.

(** C3, as the specification states it, fails: a second "@" survives the
    first normalisation and is removed by the second. *)
Lemma clean_company_twice_differs :
  exists t, clean_company sample_upper (PStr "@@Acme") = Ok t /\
            clean_company sample_upper (PStr t) <> Ok t.
Proof. exists "@ACME". split; [reflexivity | discriminate]. Qed.

Lemma clean_company_idempotent_iff_witness :
  (exists t, clean_company sample_upper (PStr "  Acme  corp ") = Ok t /\
             clean_company sample_upper (PStr t) = Ok t) /\
  clean_company sample_upper (PStr [64; 160; 223]%N) = Ok [160; 83; 83]%N /\
  clean_company sample_upper (PStr [160; 83; 83]%N) <> Ok [160; 83; 83]%N.
Proof.
  split; [|split].
  - destruct (clean_company_idempotent_iff sample_upper sample_upper_ok "  Acme  corp ")
      as (t & Ht & Hiff).
    exists t. split; [exact Ht|]. apply Hiff.
    vm_compute in Ht. injection Ht as <-. reflexivity.
  - reflexivity.
  - destruct (clean_company_idempotent_iff sample_upper sample_upper_ok
                [64; 160; 223]%N) as (t & Ht & Hiff).
    vm_compute in Ht. injection Ht as <-.
    intros H. apply Hiff in H. discriminate H.
Defined.

Lemma main_tables_consistent_witness :
  exists out users_table repos_table,
    main sample_upper demo_env demo_net = (out, Ok (users_table, repos_table)) /\
    map User.login users_table = [PStr "alice"; PStr "bob"] /\
    map Repo.login repos_table = [PStr "alice"; PStr "alice"; PStr "alice"] /\
    map Repo.license_name repos_table = [PStr "mit"; PStr ""; PStr "apache-2.0"] /\
    (forall r, In r repos_table -> Repo.login r <> PStr "carol").
Proof.
  eexists _, _, _. split; [vm_compute; reflexivity|].
  split; [reflexivity|]. split; [reflexivity|]. split; [reflexivity|].
  destruct (main_tables_consistent sample_upper demo_env demo_net _ _ _ eq_refl)
    as (users & Hu & _ & _ & Hfailed).
  vm_compute in Hu. injection Hu as <-.
  apply (Hfailed (PStr "carol")).
  intros iu [<-|[<-|[<-|[]]]]; vm_compute; intros H; solve [discriminate H | reflexivity].
Defined.

Lemma clean_company_outcomes_witness :
  clean_company sample_upper PNone = Ok "" /\
  (exists t, clean_company sample_upper (PStr " @acme ") = Ok t) /\
  clean_company sample_upper (PInt 42) = Raise AttributeError.
Proof.
  split; [|split].
  - apply (proj1 (clean_company_outcomes sample_upper PNone)). reflexivity.
  - apply (proj1 (proj2 (clean_company_outcomes sample_upper (PStr " @acme ")))).
    reflexivity.
  - apply (proj2 (proj2 (clean_company_outcomes sample_upper (PInt 42)))); reflexivity.
Defined.

Lemma clean_company_normal_form_witness :
  clean_company sample_upper (PStr [12288; 64; 223; 32; 233; 160]%N)
  = Ok [83; 83; 32; 201]%N /\
  upper sample_upper [83; 83; 32; 201]%N = [83; 83; 32; 201]%N /\
  rstrip [83; 83; 32; 201]%N = [83; 83; 32; 201]%N.
Proof.
  split; [reflexivity|].
  pose proof (clean_company_normal_form sample_upper sample_upper_ok
                (PStr [12288; 64; 223; 32; 233; 160]%N) [83; 83; 32; 201]%N eq_refl)
    as (Hu & Hr & _).
  split; [exact Hu | exact Hr].
Defined.

Lemma clean_company_case_and_padding_witness :
  clean_company sample_upper (PStr (upper sample_upper [64; 223; 233]%N))
  = clean_company sample_upper (PStr [64; 223; 233]%N) /\
  clean_company sample_upper (PStr (strip [12288; 97; 160]%N))
  = clean_company sample_upper (PStr [12288; 97; 160]%N).
Proof.
  split.
  - exact (proj1 (clean_company_case_and_padding sample_upper sample_upper_ok
                    [64; 223; 233]%N)).
  - exact (proj2 (clean_company_case_and_padding sample_upper sample_upper_ok
                    [12288; 97; 160]%N)).
Defined.

Lemma user_data_fields_witness :
  exists row,
    user_data sample_upper (PDict [("login", PNone); ("name", PNone); ("followers", PInt 7)])
    = Ok row /\
    User.login row = PNone /\ User.name row = PStr "" /\
    User.followers row = PInt 7 /\ User.public_repos row = PInt 0.
Proof.
  eexists. split; [reflexivity|].
  pose proof (user_data_fields sample_upper
                [("login", PNone); ("name", PNone); ("followers", PInt 7)] _ eq_refl)
    as (_ & _ & Hp & Hf & _ & Hl & Hn & _).
  split; [exact (Hl eq_refl)|]. split; [exact (Hn eq_refl)|].
  split; [exact Hf | exact Hp].
Defined.

Lemma user_data_outcomes_witness :
  user_data sample_upper (PList [PInt 1]) = Raise AttributeError /\
  user_data sample_upper (PDict [("login", PStr "a"); ("company", PInt 5)])
  = Raise AttributeError /\
  exists row, user_data sample_upper (PDict [("login", PStr "a"); ("company", PStr "@x")]) = Ok row.
Proof.
  split; [|split].
  - apply (proj1 (user_data_outcomes sample_upper (PList [PInt 1]))). reflexivity.
  - apply (proj1 (proj2 (user_data_outcomes sample_upper _) _ eq_refl)); reflexivity.
  - apply (proj2 (proj2 (user_data_outcomes sample_upper _) _ eq_refl)). right. reflexivity.
Defined.

Lemma main_without_token_witness :
  main sample_upper (fun _ => None) demo_net
  = ([not_found_msg; please_set_msg], Raise (SystemExit 1)).
Proof.
  apply (main_without_token sample_upper). now left.
Defined.

Lemma main_rows_well_formed_witness :
  exists users_table repos_table,
    main sample_upper demo_env demo_net = ([], Ok (users_table, repos_table)) /\
    map User.company users_table = ["ACME"; ""] /\
    map Repo.has_wiki repos_table = [""; ""; "false"] /\
    Forall (user_row_ok sample_upper) users_table /\ Forall repo_row_ok repos_table.
Proof.
  eexists _, _. split; [vm_compute; reflexivity|].
  split; [reflexivity|]. split; [reflexivity|].
  exact (main_rows_well_formed sample_upper sample_upper_ok demo_env demo_net [] _ _ eq_refl).
Defined.

Lemma main_table_sizes_witness :
  exists users_table repos_table,
    main sample_upper demo_env demo_net = ([], Ok (users_table, repos_table)) /\
    List.length users_table = 2%nat /\ List.length repos_table = 3%nat /\
    (List.length repos_table <= 500 * List.length users_table)%nat.
Proof.
  eexists _, _. split; [vm_compute; reflexivity|].
  split; [reflexivity|]. split; [reflexivity|].
  exact (proj1 (main_table_sizes sample_upper demo_env demo_net [] _ _ eq_refl)).
Defined.

Lemma main_when_fetches_fail_witness :
  main sample_upper demo_env (mkNetwork (search demo_net)
                   (fun _ _ => mkResponse 403 None false) (repos_of demo_net))
  = ([], Ok ([], [])).
Proof.
  apply (proj2 (main_when_fetches_fail sample_upper demo_env _ "ghp_demo" eq_refl)
           [1] [demo_user "alice"; demo_user "bob"; demo_user "carol"]).
  - reflexivity.
  - repeat constructor.
  - intros idx username. simpl. lia.
Defined.

Lemma main_needs_mappings_witness :
  Forall (fun user => is_dict user = true)
    [demo_user "alice"; demo_user "bob"; demo_user "carol"].
Proof.
  destruct (main_needs_mappings sample_upper demo_env demo_net [] _ eq_refl)
    as (users & Hu & Hd & _).
  vm_compute in Hu. injection Hu as <-. exact Hd.
Defined.
